(** * Hierarchical task store: the routes of [app/routes/tasks.py]

    A shallow embedding of the task routes of the to-do backend and of the
    MongoDB collection they work on, followed by the properties of the
    tree operations (cycle prevention, descendant collection, cascades),
    of the listing query and of the id handling.

    Conventions of the embedding.
    - A Python [str] is a [string]; a character is a code point below 256.
    - A Python [int] is a [Z]; [//] is [Z.div] (both round to the floor).
    - A BSON [ObjectId] is the number its twelve bytes spell (an [N]).
    - The [tasks] collection is the list of its documents in natural
      (insertion) order; a query filter is a list of conditions.
    - A handler is a function of the collection that returns the response
      (or the [ValidationError] it raises) and the collection it leaves.
      The [while] loop of [_collect_descendants] and the recursion of
      [_build_subtree] take fuel: [None] stands for a run that has not
      returned within the fuel. *)

From Stdlib Require Import List String Ascii ZArith NArith Bool Lia Arith.
From Stdlib Require Import Relations Relation_Operators Operators_Properties.
From Stdlib Require Import ListDec Permutation.
Import ListNotations.

Set Warnings "-register-all".

Local Open Scope string_scope.
Local Open Scope list_scope.

(* ================================================================== *)
(** ** Python strings *)
(* ================================================================== *)

Module Py.

(** [str.isspace] on one code point below 256: TAB..CR, FS..US, SPACE,
    NEL (0x85) and NBSP (0xA0). *)
Definition isspace (c : ascii) : bool :=
  let n := nat_of_ascii c in
  (((9 <=? n) && (n <=? 13)) || ((28 <=? n) && (n <=? 32))
   || (n =? 133) || (n =? 160))%nat.

Fixpoint lstrip (s : string) : string :=
  match s with
  | EmptyString => EmptyString
  | String c r => if isspace c then lstrip r else s
  end.

(** [rstrip]: a character is dropped when it is white and everything
    after it has been dropped. *)
Fixpoint rstrip (s : string) : string :=
  match s with
  | EmptyString => EmptyString
  | String c r =>
      match rstrip r with
      | EmptyString => if isspace c then EmptyString else String c EmptyString
      | r' => String c r'
      end
  end.

(** [s.strip()] *)
Definition strip (s : string) : string := rstrip (lstrip s).

(** [str.lower] on one code point below 256: A..Z and the Latin-1 capitals
    (0xC0..0xDE but the multiplication sign 0xD7) move up by 32. *)
Definition lower_char (c : ascii) : ascii :=
  let n := nat_of_ascii c in
  if (((65 <=? n) && (n <=? 90))
      || ((192 <=? n) && (n <=? 222) && negb (n =? 215)))%nat
  then ascii_of_nat (n + 32) else c.

Fixpoint lower (s : string) : string :=
  match s with
  | EmptyString => EmptyString
  | String c r => String (lower_char c) (lower r)
  end.

(** [s.startswith(p)] *)
Fixpoint startswith (p s : string) : bool :=
  match p, s with
  | EmptyString, _ => true
  | String a p', String b s' => Ascii.eqb a b && startswith p' s'
  | String _ _, EmptyString => false
  end.

(** [s.endswith("Z")] and [s[:-1]] *)
Fixpoint endswith_char (z : ascii) (s : string) : bool :=
  match s with
  | EmptyString => false
  | String c EmptyString => Ascii.eqb c z
  | String _ r => endswith_char z r
  end.

Fixpoint drop_last (s : string) : string :=
  match s with
  | EmptyString => EmptyString
  | String _ EmptyString => EmptyString
  | String c r => String c (drop_last r)
  end.

Fixpoint skip (n : nat) (s : string) : string :=
  match n, s with
  | O, _ => s
  | S n', String _ r => skip n' r
  | S _, EmptyString => EmptyString
  end.

(** [s.replace(old, new)]: the occurrences are replaced from the left and
    do not overlap; the fuel is the length of the text, which is all the
    scan can use. An empty [old] occurs before every character and at the
    end. *)
Fixpoint replace_from (fuel : nat) (old new s : string) : string :=
  match fuel with
  | O => s
  | S fuel' =>
      match s with
      | EmptyString => EmptyString
      | String c r =>
          if startswith old s
          then new ++ replace_from fuel' old new (skip (String.length old) s)
          else String c (replace_from fuel' old new r)
      end
  end.

Fixpoint interleave (new s : string) : string :=
  match s with
  | EmptyString => EmptyString
  | String c r => String c (new ++ interleave new r)
  end.

Definition replace (old new s : string) : string :=
  match old with
  | EmptyString => new ++ interleave new s
  | _ => replace_from (String.length s) old new s
  end.

(** Truth value of a string: [if s:] *)
Definition truthy (s : string) : bool :=
  match s with EmptyString => false | _ => true end.

(** The characters [re.escape] puts a backslash before (Python 3.7 and
    later): [()[]{}?*+-|^$\.&~#] and space, TAB, LF, CR, VT, FF. *)
Definition re_special : list ascii :=
  list_ascii_of_string "()[]{}?*+-|^$\.&~# "
  ++ map ascii_of_nat [9; 10; 13; 11; 12].

Definition is_re_special (c : ascii) : bool :=
  existsb (Ascii.eqb c) re_special.

(** [re.escape] *)
Fixpoint re_escape (s : string) : string :=
  match s with
  | EmptyString => EmptyString
  | String c r =>
      if is_re_special c then String "\" (String c (re_escape r))
      else String c (re_escape r)
  end.

End Py.

(* ================================================================== *)
(** ** BSON object ids *)
(* ================================================================== *)

Definition ObjectId := N.

Module Bson.

Definition hex_value (c : ascii) : option N :=
  let n := N_of_ascii c in
  if ((48 <=? n) && (n <=? 57))%N then Some (n - 48)%N
  else if ((97 <=? n) && (n <=? 102))%N then Some (n - 87)%N
  else if ((65 <=? n) && (n <=? 70))%N then Some (n - 55)%N
  else None.

Fixpoint parse_hex (acc : N) (s : string) : option N :=
  match s with
  | EmptyString => Some acc
  | String c r =>
      match hex_value c with
      | Some d => parse_hex (16 * acc + d)%N r
      | None => None
      end
  end.

(** [ObjectId(s)] for a [str]: twenty-four hexadecimal digits, or the
    constructor raises [InvalidId] ([None]). *)
Definition ObjectId_of_str (s : string) : option ObjectId :=
  if (String.length s =? 24)%nat then parse_hex 0%N s else None.

Definition hex_digit (d : N) : ascii :=
  if (d <? 10)%N then ascii_of_N (48 + d) else ascii_of_N (87 + d).

Fixpoint hex_digits (n : nat) (v : N) (acc : string) : string :=
  match n with
  | O => acc
  | S n' => hex_digits n' (v / 16)%N (String (hex_digit (v mod 16)%N) acc)
  end.

(** [str(oid)]: the twenty-four lower-case hexadecimal digits. *)
Definition str_of_ObjectId (o : ObjectId) : string :=
  hex_digits 24 o EmptyString.

End Bson.

(* ================================================================== *)
(** ** The [tasks] collection *)
(* ================================================================== *)

(** A stored task document, with the fields [TasksCollection.post] writes. *)
Record Task : Type := mkTask {
  _id : ObjectId;
  user_id : ObjectId;
  title : string;
  description : option string;
  priority : option Z;
  estimate_minutes : option Z;
  due_date : option string;
  parent_id : option ObjectId;
  completed : bool;
  created_at : string;
  updated_at : string;
  completed_at : option string
}.

Definition store := list Task.

(** The values a field of a task document holds. *)
Inductive bson : Type :=
| BNull
| BInt (z : Z)
| BStr (s : string)
| BOid (o : ObjectId)
| BBool (b : bool).

Definition of_opt {A : Type} (f : A -> bson) (o : option A) : bson :=
  match o with Some a => f a | None => BNull end.

(** The value of a field of a document by its name; a field the document
    does not have reads as null. *)
Definition get_field (f : string) (t : Task) : bson :=
  if f =? "_id" then BOid (_id t)
  else if f =? "user_id" then BOid (user_id t)
  else if f =? "title" then BStr (title t)
  else if f =? "description" then of_opt BStr (description t)
  else if f =? "priority" then of_opt BInt (priority t)
  else if f =? "estimate_minutes" then of_opt BInt (estimate_minutes t)
  else if f =? "due_date" then of_opt BStr (due_date t)
  else if f =? "parent_id" then of_opt BOid (parent_id t)
  else if f =? "completed" then BBool (completed t)
  else if f =? "created_at" then BStr (created_at t)
  else if f =? "updated_at" then BStr (updated_at t)
  else if f =? "completed_at" then of_opt BStr (completed_at t)
  else BNull.

(** MongoDB's order on values: first by type (null, numbers, strings,
    object ids, booleans), then within the type. *)
Definition type_rank (v : bson) : nat :=
  match v with
  | BNull => 0 | BInt _ => 1 | BStr _ => 2 | BOid _ => 3 | BBool _ => 4
  end.

Definition bson_compare (a b : bson) : comparison :=
  match a, b with
  | BNull, BNull => Eq
  | BInt x, BInt y => Z.compare x y
  | BStr x, BStr y => String.compare x y
  | BOid x, BOid y => N.compare x y
  | BBool x, BBool y => Bool.compare x y
  | _, _ => Nat.compare (type_rank a) (type_rank b)
  end.

Definition bson_eqb (a b : bson) : bool :=
  match bson_compare a b with Eq => true | _ => false end.

(* ================================================================== *)
(** ** Regular expressions of the store, on their literal fragment *)
(* ================================================================== *)

Module Regex.

(** The characters with a special meaning in a pattern (outside a
    character class). *)
Definition metachars : list ascii := list_ascii_of_string "\^$.[]|()?*+{}".

Definition is_metachar (c : ascii) : bool := existsb (Ascii.eqb c) metachars.

Definition is_alnum (c : ascii) : bool :=
  let n := nat_of_ascii c in
  (((48 <=? n) && (n <=? 57)) || ((65 <=? n) && (n <=? 90))
   || ((97 <=? n) && (n <=? 122)))%nat.

(** The text a pattern without operators stands for: a plain character
    stands for itself, a backslash before a character that is neither a
    letter nor a digit makes that character plain. A pattern that uses an
    operator or a backslash class is outside the fragment ([None]). *)
Fixpoint literal (p : string) : option string :=
  match p with
  | EmptyString => Some EmptyString
  | String c r =>
      if Ascii.eqb c "\" then
        match r with
        | EmptyString => None
        | String d r' =>
            if is_alnum d then None
            else option_map (String d) (literal r')
        end
      else if is_metachar c then None
      else option_map (String c) (literal r)
  end.

(** Caseless comparison folds the letters A..Z. *)
Definition fold_case (c : ascii) : ascii :=
  let n := nat_of_ascii c in
  if ((65 <=? n) && (n <=? 90))%nat then ascii_of_nat (n + 32) else c.

Definition char_eqb (caseless : bool) (a b : ascii) : bool :=
  if caseless then Ascii.eqb (fold_case a) (fold_case b) else Ascii.eqb a b.

Fixpoint prefix_at (caseless : bool) (lit text : string) : bool :=
  match lit, text with
  | EmptyString, _ => true
  | String a l', String b t' => char_eqb caseless a b && prefix_at caseless l' t'
  | String _ _, EmptyString => false
  end.

(** An unanchored search: the literal occurs somewhere in the text. *)
Fixpoint occurs (caseless : bool) (lit text : string) : bool :=
  prefix_at caseless lit text ||
  match text with
  | EmptyString => false
  | String _ t' => occurs caseless lit t'
  end.

Definition has_option (o : ascii) (options : string) : bool :=
  existsb (Ascii.eqb o) (list_ascii_of_string options).

(** [{"$regex": pattern, "$options": options}] on a text. *)
Definition search (pattern options text : string) : option bool :=
  match literal pattern with
  | Some lit => Some (occurs (has_option "i" options) lit text)
  | None => None
  end.

End Regex.

(* ================================================================== *)
(** ** Queries and writes of the store *)
(* ================================================================== *)

(** One condition of a filter document. *)
Inductive cond : Type :=
| FEq (f : string) (v : bson)                      (* {f: v} *)
| FIn (f : string) (vs : list bson)                (* {f: {"$in": vs}} *)
| FRegex (f : string) (pattern options : string)   (* {f: {"$regex": .., "$options": ..}} *)
| FLte (f : string) (v : bson)                     (* {f: {"$lte": v}} *)
| FGte (f : string) (v : bson)                     (* {f: {"$gte": v}} *)
| FOr (a b : cond).                                (* {"$or": [{a}, {b}]} *)

(** The assignments of a [{"$set": ...}] update. *)
Inductive assign : Type :=
| SetTitle (v : string)
| SetDescription (v : option string)
| SetPriority (v : option Z)
| SetEstimateMinutes (v : option Z)
| SetDueDate (v : option string)
| SetCompleted (v : bool)
| SetCompletedAt (v : option string)
| SetParentId (v : option ObjectId)
| SetUpdatedAt (v : string).

Module Mongo.

(** A comparison operator holds between values of one type only. *)
Definition same_type (a b : bson) : bool := (type_rank a =? type_rank b)%nat.

Fixpoint cond_holds (c : cond) (t : Task) : bool :=
  match c with
  | FEq f v => bson_eqb (get_field f t) v
  | FIn f vs => existsb (bson_eqb (get_field f t)) vs
  | FRegex f pattern options =>
      match get_field f t with
      | BStr s =>
          match Regex.search pattern options s with
          | Some b => b
          | None => false
          end
      | _ => false
      end
  | FLte f v =>
      same_type (get_field f t) v &&
      match bson_compare (get_field f t) v with Gt => false | _ => true end
  | FGte f v =>
      same_type (get_field f t) v &&
      match bson_compare (get_field f t) v with Lt => false | _ => true end
  | FOr a b => cond_holds a t || cond_holds b t
  end.

(** A filter document is the conjunction of its conditions. *)
Definition matches (flt : list cond) (t : Task) : bool :=
  forallb (fun c => cond_holds c t) flt.

Definition find (flt : list cond) (s : store) : list Task :=
  filter (matches flt) s.

Definition find_one (flt : list cond) (s : store) : option Task :=
  List.find (matches flt) s.

Definition count_documents (flt : list cond) (s : store) : Z :=
  Z.of_nat (List.length (find flt s)).

(** [count_documents(flt, limit=1)] *)
Definition count_documents_limit1 (flt : list cond) (s : store) : Z :=
  Z.of_nat (List.length (firstn 1 (find flt s))).

(** [insert_one]: the document goes to the end of the collection. *)
Definition insert_one (doc : Task) (s : store) : store := s ++ [doc].

Definition apply_assign (a : assign) (t : Task) : Task :=
  match a with
  | SetTitle v =>
      mkTask (_id t) (user_id t) v (description t) (priority t)
        (estimate_minutes t) (due_date t) (parent_id t) (completed t)
        (created_at t) (updated_at t) (completed_at t)
  | SetDescription v =>
      mkTask (_id t) (user_id t) (title t) v (priority t)
        (estimate_minutes t) (due_date t) (parent_id t) (completed t)
        (created_at t) (updated_at t) (completed_at t)
  | SetPriority v =>
      mkTask (_id t) (user_id t) (title t) (description t) v
        (estimate_minutes t) (due_date t) (parent_id t) (completed t)
        (created_at t) (updated_at t) (completed_at t)
  | SetEstimateMinutes v =>
      mkTask (_id t) (user_id t) (title t) (description t) (priority t)
        v (due_date t) (parent_id t) (completed t)
        (created_at t) (updated_at t) (completed_at t)
  | SetDueDate v =>
      mkTask (_id t) (user_id t) (title t) (description t) (priority t)
        (estimate_minutes t) v (parent_id t) (completed t)
        (created_at t) (updated_at t) (completed_at t)
  | SetCompleted v =>
      mkTask (_id t) (user_id t) (title t) (description t) (priority t)
        (estimate_minutes t) (due_date t) (parent_id t) v
        (created_at t) (updated_at t) (completed_at t)
  | SetCompletedAt v =>
      mkTask (_id t) (user_id t) (title t) (description t) (priority t)
        (estimate_minutes t) (due_date t) (parent_id t) (completed t)
        (created_at t) (updated_at t) v
  | SetParentId v =>
      mkTask (_id t) (user_id t) (title t) (description t) (priority t)
        (estimate_minutes t) (due_date t) v (completed t)
        (created_at t) (updated_at t) (completed_at t)
  | SetUpdatedAt v =>
      mkTask (_id t) (user_id t) (title t) (description t) (priority t)
        (estimate_minutes t) (due_date t) (parent_id t) (completed t)
        (created_at t) v (completed_at t)
  end.

Definition apply_set (ops : list assign) (t : Task) : Task :=
  fold_left (fun d a => apply_assign a d) ops t.

(** [update_one]: the first matching document is updated. *)
Fixpoint update_one (flt : list cond) (ops : list assign) (s : store) : store :=
  match s with
  | [] => []
  | t :: r =>
      if matches flt t then apply_set ops t :: r
      else t :: update_one flt ops r
  end.

Definition update_many (flt : list cond) (ops : list assign) (s : store) : store :=
  map (fun t => if matches flt t then apply_set ops t else t) s.

(** [delete_one]: the first matching document is removed. *)
Fixpoint delete_one (flt : list cond) (s : store) : store :=
  match s with
  | [] => []
  | t :: r => if matches flt t then r else t :: delete_one flt r
  end.

Definition delete_many (flt : list cond) (s : store) : store :=
  filter (fun t => negb (matches flt t)) s.

(** Cursor operations: [sort] by a list of (field, direction) keys,
    [skip], and [limit] (a limit of 0 is no limit, a negative one counts
    by its absolute value). *)
Fixpoint doc_compare (spec : list (string * Z)) (a b : Task) : comparison :=
  match spec with
  | [] => Eq
  | (f, o) :: r =>
      match bson_compare (get_field f a) (get_field f b) with
      | Eq => doc_compare r a b
      | c => if (o <? 0)%Z then CompOpp c else c
      end
  end.

Definition doc_leb (spec : list (string * Z)) (a b : Task) : bool :=
  match doc_compare spec a b with Gt => false | _ => true end.

Fixpoint insert_sorted (spec : list (string * Z)) (x : Task) (l : list Task) : list Task :=
  match l with
  | [] => [x]
  | y :: r => if doc_leb spec x y then x :: l else y :: insert_sorted spec x r
  end.

Definition sort (spec : list (string * Z)) (l : list Task) : list Task :=
  fold_right (insert_sorted spec) [] l.

Definition skip (n : Z) (l : list Task) : list Task := skipn (Z.to_nat n) l.

Definition limit (n : Z) (l : list Task) : list Task :=
  if (n =? 0)%Z then l else firstn (Z.to_nat (Z.abs n)) l.

End Mongo.

(* ================================================================== *)
(** ** Handlers: results, errors and the collection they run on *)
(* ================================================================== *)

(** What a call leaves: a value, the [ValidationError] it raised, or
    another exception (the request then fails with a server error). *)
Inductive outcome (A : Type) : Type :=
| Return (a : A)
| Raise (msg : string)
| Crash (exc : string).

Arguments Return {A} a.
Arguments Raise {A} msg.
Arguments Crash {A} exc.

(** A handler runs on the collection; [None] is a run out of fuel. *)
Definition M (A : Type) : Type := store -> option (outcome A * store).

Definition ret {A : Type} (a : A) : M A := fun s => Some (Return a, s).

Definition raise {A : Type} (msg : string) : M A := fun s => Some (Raise msg, s).

Definition crash {A : Type} (exc : string) : M A := fun s => Some (Crash exc, s).

Definition bind {A B : Type} (m : M A) (k : A -> M B) : M B :=
  fun s =>
    match m s with
    | None => None
    | Some (Return a, s') => k a s'
    | Some (Raise msg, s') => Some (Raise msg, s')
    | Some (Crash exc, s') => Some (Crash exc, s')
    end.

Definition lift {A : Type} (o : outcome A) : M A := fun s => Some (o, s).

(** Reading and writing the [tasks] collection. *)
Definition query {A : Type} (f : store -> A) : M A := fun s => Some (Return (f s), s).

Definition modify (f : store -> store) : M unit := fun s => Some (Return tt, f s).

(** A loop or recursion that may not return: [None] of the fuelled
    computation is a run out of fuel. *)
Definition fuelled {A : Type} (f : store -> option A) : M A :=
  fun s => match f s with Some a => Some (Return a, s) | None => None end.

Declare Scope handler_scope.
Delimit Scope handler_scope with handler.

Notation "x <- m ;; k" := (bind m (fun x => k))
  (at level 61, m at next level, right associativity) : handler_scope.
Notation "m ;;; k" := (bind m (fun _ => k))
  (at level 61, right associativity) : handler_scope.

Local Open Scope handler_scope.

(** The messages of the errors the routes raise, under the names the
    specification gives to the error kinds. *)
Module Err.
Definition InvalidIdFormat : string := "Invalid id format.".
Definition InvalidTaskId : string := "Invalid task id.".
Definition InvalidIso : string := "Invalid ISO datetime format.".
Definition TaskNotFound : string := "Task not found.".
Definition ParentNotFound : string := "Parent task not found or not owned by user.".
Definition ParentIsSelf : string := "parent_id cannot be the task itself.".
Definition ParentIsDescendant : string :=
  "parent_id cannot be a descendant of the task (circular hierarchy).".
Definition HasChildren : string :=
  "Task has subtasks. Use cascade=true to delete with descendants.".

(** [CircularParent] is raised with one of two messages. *)
Definition is_CircularParent (msg : string) : Prop :=
  msg = ParentIsSelf \/ msg = ParentIsDescendant.
End Err.

(* ================================================================== *)
(** ** Helpers of [tasks.py] *)
(* ================================================================== *)

Definition in_strs (s : string) (l : list string) : bool :=
  existsb (String.eqb s) l.

(** [_oid] *)
Definition _oid (obj_id : option string) : outcome (option ObjectId) :=
  match obj_id with
  | None => Return None
  | Some x =>
      let s := Py.strip x in
      if in_strs s [""; "null"; "None"] then Return None
      else match Bson.ObjectId_of_str s with
           | Some o => Return (Some o)
           | None => Raise Err.InvalidIdFormat
           end
  end.

(** The public representation of a task, [_serialize_task]. *)
Record Serialized : Type := mkSerialized {
  ser_id : string;
  ser_user_id : option string;
  ser_title : string;
  ser_description : option string;
  ser_priority : option Z;
  ser_estimate_minutes : option Z;
  ser_due_date : option string;
  ser_parent_id : option string;
  ser_completed : bool;
  ser_created_at : string;
  ser_updated_at : string;
  ser_completed_at : option string
}.

Definition _serialize_task (doc : Task) : Serialized :=
  {| ser_id := Bson.str_of_ObjectId (_id doc);
     ser_user_id := Some (Bson.str_of_ObjectId (user_id doc));
     ser_title := title doc;
     ser_description := description doc;
     ser_priority := priority doc;
     ser_estimate_minutes := estimate_minutes doc;
     ser_due_date := due_date doc;
     ser_parent_id := option_map Bson.str_of_ObjectId (parent_id doc);
     ser_completed := completed doc;
     ser_created_at := created_at doc;
     ser_updated_at := updated_at doc;
     ser_completed_at := completed_at doc |}.

(** The [datetime] functions [_parse_iso] and the listing use. *)
Class Datetime : Type := {
  datetime : Type;
  fromisoformat : string -> option datetime;   (* [None]: it raises *)
  isoformat : datetime -> string
}.

(** [_parse_iso] *)
Definition _parse_iso `{Datetime} (dt_str : option string) : outcome (option datetime) :=
  match dt_str with
  | None => Return None
  | Some x =>
      if negb (Py.truthy x) then Return None
      else
        let x' := if Py.endswith_char "Z" x then (Py.drop_last x ++ "+00:00")%string else x in
        match fromisoformat x' with
        | Some d => Return (Some d)
        | None => Raise Err.InvalidIso
        end
  end.

(** The filter [{"_id": oid, "user_id": ObjectId(user_id)}]. *)
Definition owned_by (uid oid : ObjectId) : list cond :=
  [FEq "_id" (BOid oid); FEq "user_id" (BOid uid)].

(** The filter [{"parent_id": parent, "user_id": ObjectId(user_id)}]. *)
Definition children_of (uid parent : ObjectId) : list cond :=
  [FEq "parent_id" (BOid parent); FEq "user_id" (BOid uid)].

(** A task with its nested subtasks, as [_build_subtree] returns it. *)
Inductive TaskTree : Type :=
| TaskNode (node : Serialized) (subtasks : list TaskTree).

(** A list comprehension whose body may run out of fuel. *)
Fixpoint map_opt {A B : Type} (f : A -> option B) (l : list A) : option (list B) :=
  match l with
  | [] => Some []
  | a :: r =>
      match f a with
      | None => None
      | Some b =>
          match map_opt f r with
          | None => None
          | Some bs => Some (b :: bs)
          end
      end
  end.

(** [fetch_children] of [_build_subtree]. *)
Fixpoint fetch_children (fuel : nat) (tasks : store) (uid parent_oid : ObjectId)
  : option (list TaskTree) :=
  match fuel with
  | O => None
  | S fuel' =>
      let children := Mongo.find (children_of uid parent_oid) tasks in
      map_opt
        (fun ch =>
           match fetch_children fuel' tasks uid (_id ch) with
           | Some sub => Some (TaskNode (_serialize_task ch) sub)
           | None => None
           end)
        children
  end.

(** [_build_subtree] *)
Definition _build_subtree (fuel : nat) (uid root_id : ObjectId) : M TaskTree :=
  root <- query (Mongo.find_one (owned_by uid root_id)) ;;
  match root with
  | None => raise Err.TaskNotFound
  | Some root =>
      sub <- fuelled (fun tasks => fetch_children fuel tasks uid (_id root)) ;;
      ret (TaskNode (_serialize_task root) sub)
  end.

(** [list.pop()]: the last element and the list without it. *)
Definition pop {A : Type} (l : list A) : option (list A * A) :=
  match rev l with
  | [] => None
  | x :: r => Some (rev r, x)
  end.

(** The [while frontier:] loop of [_collect_descendants]. *)
Fixpoint collect_loop (fuel : nat) (tasks : store) (uid : ObjectId)
    (collected frontier : list ObjectId) : option (list ObjectId) :=
  match fuel with
  | O => None
  | S fuel' =>
      match pop frontier with
      | None => Some collected
      | Some (frontier', cur) =>
          let children := Mongo.find (children_of uid cur) tasks in
          let child_ids := map _id children in
          collect_loop fuel' tasks uid (collected ++ child_ids) (frontier' ++ child_ids)
      end
  end.

(** [_collect_descendants] *)
Definition _collect_descendants (fuel : nat) (uid root_oid : ObjectId) : M (list ObjectId) :=
  fuelled (fun tasks => collect_loop fuel tasks uid [root_oid] [root_oid]).

(** [_has_children] *)
Definition _has_children (uid oid : ObjectId) : M bool :=
  n <- query (Mongo.count_documents_limit1 (children_of uid oid)) ;;
  ret (0 <? n)%Z.

(** Membership in [set(descendants)]. *)
Definition mem_oid (x : ObjectId) (l : list ObjectId) : bool := existsb (N.eqb x) l.

(** [_prevent_circular_parent] *)
Definition _prevent_circular_parent (fuel : nat) (uid task_oid : ObjectId)
    (new_parent_oid : option ObjectId) : M unit :=
  match new_parent_oid with
  | None => ret tt
  | Some p =>
      if (task_oid =? p)%N then raise Err.ParentIsSelf
      else
        descendants <- _collect_descendants fuel uid task_oid ;;
        if mem_oid p descendants then raise Err.ParentIsDescendant
        else ret tt
  end.

(** [_make_sort] *)
Definition _make_sort (sort_by sort_order : string) : list (string * Z) :=
  let order := if sort_order =? "desc" then (-1)%Z else 1%Z in
  let field_map :=
    [("created_at", "created_at"); ("updated_at", "updated_at");
     ("due_date", "due_date"); ("priority", "priority");
     ("estimate_minutes", "estimate_minutes"); ("title", "title")] in
  let sort_field :=
    match List.find (fun kv => fst kv =? sort_by) field_map with
    | Some kv => snd kv
    | None => "created_at"
    end in
  [(sort_field, order); ("_id", order)].

(* ================================================================== *)
(** ** Routes *)
(* ================================================================== *)

(** The pagination metadata of a listing. *)
Record Pagination : Type := mkPagination {
  total : Z;
  total_pages : Z;
  first_page : Z;
  last_page : Z;
  page : Z;
  previous_page : option Z;
  next_page : option Z
}.

Record TaskList : Type := mkTaskList {
  items : list Serialized;
  meta : Pagination
}.

(** The query arguments of a listing, as the query schema loads them. *)
Record TaskQuery : Type := mkTaskQuery {
  q_q : option string;
  q_completed : option bool;
  q_priority : option Z;
  q_due_before : option string;
  q_due_after : option string;
  q_parent_id : option string;
  q_sort_by : string;
  q_sort_order : string;
  q_page : Z;
  q_page_size : Z
}.

(** The text condition of a listing: [re.escape(q.strip())], caseless, on
    the title or the description. *)
Definition text_filter (q : option string) : list cond :=
  match q with
  | Some q =>
      if Py.truthy q then
        let safe_q := Py.re_escape (Py.strip q) in
        [FOr (FRegex "title" safe_q "i") (FRegex "description" safe_q "i")]
      else []
  | None => []
  end.

(** A bound on [due_date]: the parsed value printed back, with [Z] for
    the UTC offset. *)
Definition due_bound `{Datetime} (mk : bson -> cond) (arg : option string)
  : outcome (list cond) :=
  match arg with
  | Some x =>
      if Py.truthy x then
        match _parse_iso (Some x) with
        | Return (Some dt) => Return [mk (BStr (Py.replace "+00:00" "Z" (isoformat dt)))]
        | Return None => Return [mk BNull]
        | Raise msg => Raise msg
        | Crash exc => Crash exc
        end
      else Return []
  | None => Return []
  end.

(** The filter a listing builds, in the order the handler builds it. *)
Definition build_filter `{Datetime} (uid : ObjectId) (a : TaskQuery)
  : outcome (list cond) :=
  let f_user := [FEq "user_id" (BOid uid)] in
  let f_q := text_filter (q_q a) in
  let f_completed :=
    match q_completed a with Some b => [FEq "completed" (BBool b)] | None => [] end in
  let f_priority :=
    match q_priority a with Some p => [FEq "priority" (BInt p)] | None => [] end in
  match due_bound (FLte "due_date") (q_due_before a) with
  | Return f_before =>
      match due_bound (FGte "due_date") (q_due_after a) with
      | Return f_after =>
          match q_parent_id a with
          | Some p =>
              match _oid (Some p) with
              | Return parent_oid =>
                  Return (f_user ++ f_q ++ f_completed ++ f_priority ++ f_before
                          ++ f_after ++ [FEq "parent_id" (of_opt BOid parent_oid)])
              | Raise msg => Raise msg
              | Crash exc => Crash exc
              end
          | None =>
              Return (f_user ++ f_q ++ f_completed ++ f_priority ++ f_before
                      ++ f_after ++ [FEq "parent_id" BNull])
          end
      | Raise msg => Raise msg
      | Crash exc => Crash exc
      end
  | Raise msg => Raise msg
  | Crash exc => Crash exc
  end.

(** [x or 1] on an integer. *)
Definition or_1 (x : Z) : Z := if (x =? 0)%Z then 1%Z else x.

(** [TasksCollection.get] *)
Definition TasksCollection_get `{Datetime} (uid : ObjectId) (a : TaskQuery) : M TaskList :=
  flt <- lift (build_filter uid a) ;;
  let page_size := q_page_size a in
  let sort_spec := _make_sort (q_sort_by a) (q_sort_order a) in
  total <- query (Mongo.count_documents flt) ;;
  let last_page :=
    if (0 <? page_size)%Z then ((total + page_size - 1) / page_size)%Z else 1%Z in
  let page := Z.max 1 (Z.min (q_page a) (Z.max 1 last_page)) in
  cursor <- query (fun tasks =>
              Mongo.limit page_size
                (Mongo.skip ((page - 1) * page_size)
                   (Mongo.sort sort_spec (Mongo.find flt tasks)))) ;;
  let items := map _serialize_task cursor in
  let meta :=
    {| total := total;
       total_pages := last_page;
       first_page := 1;
       last_page := or_1 last_page;
       page := page;
       previous_page := if (1 <? page)%Z then Some (page - 1)%Z else None;
       next_page := if (page <? or_1 last_page)%Z then Some (page + 1)%Z else None |} in
  ret {| items := items; meta := meta |}.

(** The body of a creation, as the creation schema loads it. *)
Record TaskBase : Type := mkTaskBase {
  b_title : string;
  b_description : option string;
  b_priority : option Z;
  b_estimate_minutes : option Z;
  b_due_date : option string;
  b_parent_id : option string;
  b_completed : bool
}.

(** [TasksCollection.post]; [inserted_id] is the id the store gives to the
    new document and [now_iso] the reading of the clock. *)
Definition TasksCollection_post (uid : ObjectId) (b : TaskBase)
    (inserted_id : ObjectId) (now_iso : string) : M Serialized :=
  parent_oid <- lift (_oid (b_parent_id b)) ;;
  match parent_oid with
   | Some p =>
       parent <- query (Mongo.find_one (owned_by uid p)) ;;
       match parent with
       | None => raise Err.ParentNotFound
       | Some _ => ret tt
       end
   | None => ret tt
   end ;;;
  let doc :=
    {| _id := inserted_id;
       user_id := uid;
       title := b_title b;
       description := b_description b;
       priority := b_priority b;
       estimate_minutes := b_estimate_minutes b;
       due_date := b_due_date b;
       parent_id := parent_oid;
       completed := b_completed b;
       created_at := now_iso;
       updated_at := now_iso;
       completed_at := if b_completed b then Some now_iso else None |} in
  modify (Mongo.insert_one doc) ;;;
  ret (_serialize_task doc).

(** [request.args.get(name, "false").lower() == "true"] *)
Definition flag_arg (arg : option string) : bool :=
  let v := match arg with Some v => v | None => "false" end in
  Py.lower v =? "true".

(** The path id of a single-task route: [_oid] and the null check. *)
Definition task_oid (task_id : string) : outcome ObjectId :=
  match _oid (Some task_id) with
  | Return (Some oid) => Return oid
  | Return None => Raise Err.InvalidTaskId
  | Raise msg => Raise msg
  | Crash exc => Crash exc
  end.

(** What [TaskResource.get] returns: the task, or the task with its
    nested subtasks. *)
Inductive TaskView : Type :=
| Plain (t : Serialized)
| Nested (t : TaskTree).

(** [TaskResource.get] *)
Definition TaskResource_get (fuel : nat) (uid : ObjectId) (task_id : string)
    (include_subtasks_arg : option string) : M TaskView :=
  let include_subtasks := flag_arg include_subtasks_arg in
  oid <- lift (task_oid task_id) ;;
  if include_subtasks then
    t <- _build_subtree fuel uid oid ;;
    ret (Nested t)
  else
    doc <- query (Mongo.find_one (owned_by uid oid)) ;;
    match doc with
    | None => raise Err.TaskNotFound
    | Some doc => ret (Plain (_serialize_task doc))
    end.

(** The keys of a partial update: [None] is a key that is not in the
    payload, [Some v] a key with the value [v] (which may be null). *)
Record Updates : Type := mkUpdates {
  u_title : option string;
  u_description : option (option string);
  u_priority : option (option Z);
  u_estimate_minutes : option (option Z);
  u_due_date : option (option string);
  u_parent_id : option (option string);
  u_completed : option bool
}.

Definition opt_list {A B : Type} (f : A -> list B) (o : option A) : list B :=
  match o with Some a => f a | None => [] end.

(** The [set_ops] of a patch before the parent is looked at;
    [now_completed] is the clock read for [completed_at]. *)
Definition field_set_ops (u : Updates) (now_completed : string) : list assign :=
  opt_list (fun v => [SetTitle v]) (u_title u)
  ++ opt_list (fun v => [SetDescription v]) (u_description u)
  ++ opt_list (fun v => [SetPriority v]) (u_priority u)
  ++ opt_list (fun v => [SetEstimateMinutes v]) (u_estimate_minutes u)
  ++ opt_list (fun v => [SetDueDate v]) (u_due_date u)
  ++ opt_list (fun comp_val =>
       [SetCompleted comp_val;
        SetCompletedAt (if comp_val then Some now_completed else None)])
       (u_completed u).

(** [TaskResource.patch]; the clock is read once for [completed_at] and
    once for [updated_at]. *)
Definition TaskResource_patch (fuel : nat) (uid : ObjectId) (task_id : string)
    (updates : Updates) (now_completed now_updated : string) : M Serialized :=
  oid <- lift (task_oid task_id) ;;
  doc <- query (Mongo.find_one (owned_by uid oid)) ;;
  match doc with
  | None => raise Err.TaskNotFound
  | Some _ =>
      let set_ops := field_set_ops updates now_completed in
      parent_ops <-
        match u_parent_id updates with
        | Some new_parent =>
            new_parent_oid <- lift (_oid new_parent) ;;
            match new_parent_oid with
             | Some p =>
                 parent <- query (Mongo.find_one (owned_by uid p)) ;;
                 match parent with
                 | None => raise Err.ParentNotFound
                 | Some _ => ret tt
                 end
             | None => ret tt
             end ;;;
            _prevent_circular_parent fuel uid oid new_parent_oid ;;;
            ret [SetParentId new_parent_oid]
        | None => ret []
        end ;;
      let set_ops := set_ops ++ parent_ops ++ [SetUpdatedAt now_updated] in
      modify (Mongo.update_one (owned_by uid oid) set_ops) ;;;
      updated <- query (Mongo.find_one [FEq "_id" (BOid oid)]) ;;
      match updated with
      | Some updated => ret (_serialize_task updated)
      | None => crash "AttributeError"
      end
  end.

(** [TaskResource.delete] *)
Definition TaskResource_delete (fuel : nat) (uid : ObjectId) (task_id : string)
    (cascade_arg : option string) : M unit :=
  let cascade := flag_arg cascade_arg in
  oid <- lift (task_oid task_id) ;;
  exists_ <- query (Mongo.find_one (owned_by uid oid)) ;;
  match exists_ with
  | None => raise Err.TaskNotFound
  | Some _ =>
      if cascade then
        ids <- _collect_descendants fuel uid oid ;;
        modify (Mongo.delete_many [FIn "_id" (map BOid ids); FEq "user_id" (BOid uid)])
      else
        has <- _has_children uid oid ;;
        if has then raise Err.HasChildren
        else modify (Mongo.delete_one (owned_by uid oid))
  end.

(** [TaskComplete.post]; [when] is the one reading of the clock. *)
Definition TaskComplete_post (fuel : nat) (uid : ObjectId) (task_id : string)
    (when : string) : M Serialized :=
  oid <- lift (task_oid task_id) ;;
  base <- query (Mongo.find_one (owned_by uid oid)) ;;
  match base with
  | None => raise Err.TaskNotFound
  | Some _ =>
      ids <- _collect_descendants fuel uid oid ;;
      modify (Mongo.update_many
                [FIn "_id" (map BOid ids); FEq "user_id" (BOid uid)]
                [SetCompleted true; SetCompletedAt (Some when); SetUpdatedAt when]) ;;;
      updated <- query (Mongo.find_one [FEq "_id" (BOid oid)]) ;;
      match updated with
      | Some updated => ret (_serialize_task updated)
      | None => crash "AttributeError"
      end
  end.

(* ================================================================== *)
(** ** The parent relation, requests and reachable collections *)
(* ================================================================== *)

(** [parent_edge s uid c p]: in [s], the owner [uid] has a task [c] whose
    [parent_id] is [p]. *)
Definition parent_edge (s : store) (uid : ObjectId) (c p : ObjectId) : Prop :=
  exists t, In t s /\ _id t = c /\ user_id t = uid /\ parent_id t = Some p.

(** [ancestor s uid x a]: [a] is reached from [x] by one or more parent
    edges of the owner. *)
Definition ancestor (s : store) (uid : ObjectId) : ObjectId -> ObjectId -> Prop :=
  clos_trans ObjectId (parent_edge s uid).

(** [descends s uid y x]: [y] is [x] or has [x] among its ancestors. *)
Definition descends (s : store) (uid : ObjectId) : ObjectId -> ObjectId -> Prop :=
  clos_refl_trans ObjectId (parent_edge s uid).

(** No task of the owner is its own ancestor. *)
Definition acyclic (s : store) (uid : ObjectId) : Prop :=
  forall x, ~ ancestor s uid x x.

(** The ids of the children of [x] among the owner's tasks, as the
    traversals query them. *)
Definition child_ids (s : store) (uid x : ObjectId) : list ObjectId :=
  map _id (Mongo.find (children_of uid x) s).

(** The store keeps its ids apart ([_id] is the unique key). *)
Definition unique_ids (s : store) : Prop := NoDup (map _id s).

(** Every parent reference points to a stored task of the same owner. *)
Definition parents_owned (s : store) : Prop :=
  forall t p, In t s -> parent_id t = Some p ->
    exists t', In t' s /\ _id t' = p /\ user_id t' = user_id t.

(** [completed] is false exactly when [completed_at] is null. *)
Definition completion_consistent (t : Task) : Prop :=
  completed t = false <-> completed_at t = None.

(** A request that may change the collection, with what the environment
    supplies to it (the id of an inserted document, the clock). *)
Inductive request : Type :=
| Create (uid : ObjectId) (b : TaskBase) (inserted_id : ObjectId) (now_iso : string)
| Update (uid : ObjectId) (task_id : string) (u : Updates)
    (now_completed now_updated : string)
| Delete (uid : ObjectId) (task_id : string) (cascade_arg : option string)
| Complete (uid : ObjectId) (task_id : string) (when : string).

(** The collection a request leaves, whatever it answers. *)
Definition leaves {A : Type} (m : M A) (s s' : store) : Prop :=
  exists o, m s = Some (o, s').

(** One request served on [s] leaves [s']. The store gives a new document
    an id that no stored document has. *)
Inductive step (s : store) : request -> store -> Prop :=
| step_create uid b new_id now s' :
    ~ In new_id (map _id s) ->
    leaves (TasksCollection_post uid b new_id now) s s' ->
    step s (Create uid b new_id now) s'
| step_update fuel uid task_id u now1 now2 s' :
    leaves (TaskResource_patch fuel uid task_id u now1 now2) s s' ->
    step s (Update uid task_id u now1 now2) s'
| step_delete fuel uid task_id cascade_arg s' :
    leaves (TaskResource_delete fuel uid task_id cascade_arg) s s' ->
    step s (Delete uid task_id cascade_arg) s'
| step_complete fuel uid task_id when s' :
    leaves (TaskComplete_post fuel uid task_id when) s s' ->
    step s (Complete uid task_id when) s'.

(** The collections reached from the empty one by requests of a kind. *)
Inductive reachable (allowed : request -> Prop) : store -> Prop :=
| reach_empty : reachable allowed []
| reach_step s r s' :
    reachable allowed s -> allowed r -> step s r s' -> reachable allowed s'.

Definition create_or_update (r : request) : Prop :=
  match r with
  | Create _ _ _ _ | Update _ _ _ _ _ => True
  | _ => False
  end.

Definition any_request (r : request) : Prop := True.

(** [shallow s uid d x]: below [x], no chain of children has [d] tasks or
    more. *)
Fixpoint shallow (s : store) (uid : ObjectId) (d : nat) (x : ObjectId) : Prop :=
  match d with
  | O => False
  | S d' => forall c, In c (child_ids s uid x) -> shallow s uid d' c
  end.

(** [deep s uid k x]: below [x] there is a chain of [k] children, each
    the child of the one before. *)
Fixpoint deep (s : store) (uid : ObjectId) (k : nat) (x : ObjectId) : Prop :=
  match k with
  | O => True
  | S k' => exists c, In c (child_ids s uid x) /\ deep s uid k' c
  end.

(** No task that descends from [root] (the root included) is its own
    ancestor. *)
Definition loop_free_below (s : store) (uid root : ObjectId) : Prop :=
  forall x, descends s uid x root -> ~ ancestor s uid x x.

(** A stored task owned by [uid] under the id [oid]. *)
Definition owns (s : store) (uid oid : ObjectId) : Prop :=
  exists t, In t s /\ _id t = oid /\ user_id t = uid.

(** The parent part of the [set_ops] of a patch that gets to its write:
    no key, a null parent, or a parent that is owned, is not the task and
    is not among its collected descendants. *)
Inductive parent_ops_ok (fuel : nat) (s : store) (uid oid : ObjectId)
  : list assign -> Prop :=
| pops_absent : parent_ops_ok fuel s uid oid []
| pops_root : parent_ops_ok fuel s uid oid [SetParentId None]
| pops_parent p l :
    owns s uid p -> p <> oid ->
    collect_loop fuel s uid [oid] [oid] = Some l -> ~ In p l ->
    parent_ops_ok fuel s uid oid [SetParentId (Some p)].

(** The key of a document in the collection: its id and its owner. *)
Definition key (t : Task) : ObjectId * ObjectId := (_id t, user_id t).

(** What the store and the routes keep of a collection: ids are unique,
    parents are stored tasks of the same owner, no owner has a cycle. *)
Definition well_formed (s : store) : Prop :=
  unique_ids s /\ parents_owned s /\ forall uid, acyclic s uid.

(** A task marked completed at [when], in the words of the
    specification: completed = true, completed_at = when,
    updated_at = when, every other field as it was. *)
Definition mark_completed (when : string) (t : Task) : Task :=
  {| _id := _id t; user_id := user_id t; title := title t;
     description := description t; priority := priority t;
     estimate_minutes := estimate_minutes t; due_date := due_date t;
     parent_id := parent_id t; completed := true; created_at := created_at t;
     updated_at := when; completed_at := Some when |}.

(** A text with its letters folded to one case. *)
Fixpoint fold_text (s : string) : string :=
  match s with
  | EmptyString => EmptyString
  | String c r => String (Regex.fold_case c) (fold_text r)
  end.

(** [occurs_in q text]: [q] occurs in [text] as it is written, letter case
    apart. *)
Definition occurs_in (q text : string) : Prop :=
  exists before after, fold_text text = (before ++ fold_text q ++ after)%string.

(* ================================================================== *)
(** ** A stand-in for [datetime] in the examples *)
(* ================================================================== *)

Module IsoText.

Definition is_digit (c : ascii) : bool :=
  let n := nat_of_ascii c in ((48 <=? n) && (n <=? 57))%nat.

(** The text starts with a date, [dddd-dd-dd]. *)
Definition date_shaped (s : string) : bool :=
  match list_ascii_of_string s with
  | y1 :: y2 :: y3 :: y4 :: d1 :: m1 :: m2 :: d2 :: a1 :: a2 :: _ =>
      forallb is_digit [y1; y2; y3; y4; m1; m2; a1; a2]
      && Ascii.eqb d1 "-" && Ascii.eqb d2 "-"
  | _ => false
  end.

(** A value is the text that was read, and prints as it was read. *)
#[global] Instance iso_text : Datetime :=
  {| datetime := string;
     fromisoformat := fun s => if date_shaped s then Some s else None;
     isoformat := fun d => d |}.

End IsoText.

(* ================================================================== *)
(** ** Sample collections *)
(* ================================================================== *)

Module Demo.

Definition alice : ObjectId := 10%N.
Definition bob : ObjectId := 11%N.

Definition id1 : string := "000000000000000000000001".
Definition id2 : string := "000000000000000000000002".
Definition id3 : string := "000000000000000000000003".

Definition body (title : string) (parent : option string) : TaskBase :=
  {| b_title := title; b_description := None; b_priority := None;
     b_estimate_minutes := None; b_due_date := None; b_parent_id := parent;
     b_completed := false |}.

Definition task (id owner : ObjectId) (title : string) (parent : option ObjectId)
    (now : string) : Task :=
  {| _id := id; user_id := owner; title := title; description := None;
     priority := None; estimate_minutes := None; due_date := None;
     parent_id := parent; completed := false; created_at := now;
     updated_at := now; completed_at := None |}.

(** Alice's task A (id 1) with its subtask B (id 2). *)
Definition tree : store :=
  [task 1%N alice "A" None "2024-01-01T00:00:00Z";
   task 2%N alice "B" (Some 1%N) "2024-01-02T00:00:00Z"].

(** The same two tasks and a task of Bob (id 3). *)
Definition shared : store :=
  tree ++ [task 3%N bob "C" None "2024-01-03T00:00:00Z"].

(** A collection that no sequence of requests builds: A and B are each
    the parent of the other. *)
Definition cyclic : store :=
  [task 1%N alice "A" (Some 2%N) "2024-01-01T00:00:00Z";
   task 2%N alice "B" (Some 1%N) "2024-01-02T00:00:00Z"].

(** The cyclic collection with a task C (id 3) under A: the cycle is
    above C, not below it. *)
Definition cyclic_above : store :=
  cyclic ++ [task 3%N alice "C" (Some 1%N) "2024-01-03T00:00:00Z"].

(** A task of Alice titled "a", with no description. *)
Definition titled_a : Task := task 1%N alice "a" None "2024-01-01T00:00:00Z".

(** A payload that only sets the parent. *)
Definition set_parent (p : option string) : Updates :=
  {| u_title := None; u_description := None; u_priority := None;
     u_estimate_minutes := None; u_due_date := None; u_parent_id := Some p;
     u_completed := None |}.

(** The listing with every argument left to its default. *)
Definition list_all : TaskQuery :=
  {| q_q := None; q_completed := None; q_priority := None;
     q_due_before := None; q_due_after := None; q_parent_id := None;
     q_sort_by := "created_at"; q_sort_order := "desc";
     q_page := 1; q_page_size := 20 |}.

(** Page [p] of the default listing. *)
Definition list_page (p : Z) : TaskQuery :=
  {| q_q := None; q_completed := None; q_priority := None;
     q_due_before := None; q_due_after := None; q_parent_id := None;
     q_sort_by := "created_at"; q_sort_order := "desc";
     q_page := p; q_page_size := 20 |}.

(** [n] root tasks of Alice, with the ids 1 to [n]. *)
Definition roots (n : nat) : store :=
  map (fun i => task (N.of_nat i) alice "T" None "2024-01-01T00:00:00Z") (seq 1 n).

(** The default listing with a text to search. *)
Definition search_for (q : string) : TaskQuery :=
  {| q_q := Some q; q_completed := None; q_priority := None;
     q_due_before := None; q_due_after := None; q_parent_id := None;
     q_sort_by := "created_at"; q_sort_order := "desc";
     q_page := 1; q_page_size := 20 |}.

End Demo.

(* ================================================================== *)
(** ** Filters and queries *)
(* ================================================================== *)

Lemma bson_eqb_oid (a b : ObjectId) : bson_eqb (BOid a) (BOid b) = N.eqb a b.
Proof.
  unfold bson_eqb; simpl.
  destruct (N.compare_spec a b) as [E | L | G].
  - subst; now rewrite N.eqb_refl.
  - symmetry; apply N.eqb_neq; lia.
  - symmetry; apply N.eqb_neq; lia.
Qed.

Lemma matches_owned_by (uid oid : ObjectId) (t : Task) :
  Mongo.matches (owned_by uid oid) t = (N.eqb (_id t) oid && N.eqb (user_id t) uid).
Proof.
  unfold Mongo.matches, owned_by; simpl.
  change (get_field "_id" t) with (BOid (_id t)).
  change (get_field "user_id" t) with (BOid (user_id t)).
  rewrite !bson_eqb_oid, andb_true_r; reflexivity.
Qed.

Lemma owned_by_true (uid oid : ObjectId) (t : Task) :
  Mongo.matches (owned_by uid oid) t = true <-> _id t = oid /\ user_id t = uid.
Proof.
  rewrite matches_owned_by, andb_true_iff, !N.eqb_eq; tauto.
Qed.

Lemma matches_by_id (oid : ObjectId) (t : Task) :
  Mongo.matches [FEq "_id" (BOid oid)] t = N.eqb (_id t) oid.
Proof.
  unfold Mongo.matches; simpl.
  change (get_field "_id" t) with (BOid (_id t)).
  rewrite bson_eqb_oid, andb_true_r; reflexivity.
Qed.

Lemma children_of_true (uid p : ObjectId) (t : Task) :
  Mongo.matches (children_of uid p) t = true <-> parent_id t = Some p /\ user_id t = uid.
Proof.
  unfold Mongo.matches, children_of; simpl.
  change (get_field "parent_id" t) with (of_opt BOid (parent_id t)).
  change (get_field "user_id" t) with (BOid (user_id t)).
  rewrite andb_true_r, andb_true_iff, bson_eqb_oid, N.eqb_eq.
  destruct (parent_id t) as [x|]; simpl.
  - rewrite bson_eqb_oid, N.eqb_eq. split; intros [A B]; split; congruence.
  - unfold bson_eqb; simpl. split; intros [A B]; discriminate.
Qed.

Lemma mem_oid_In (x : ObjectId) (l : list ObjectId) : mem_oid x l = true <-> In x l.
Proof.
  unfold mem_oid; rewrite existsb_exists; split.
  - intros [y [Hy E]]. apply N.eqb_eq in E; now subst.
  - intros H; exists x; split; [assumption | apply N.eqb_refl].
Qed.

Lemma existsb_bson_oid (x : ObjectId) (ids : list ObjectId) :
  existsb (bson_eqb (BOid x)) (map BOid ids) = mem_oid x ids.
Proof.
  unfold mem_oid; induction ids as [|y r IH]; simpl; [reflexivity|].
  now rewrite bson_eqb_oid, IH.
Qed.

Lemma matches_in_ids (uid : ObjectId) (ids : list ObjectId) (t : Task) :
  Mongo.matches [FIn "_id" (map BOid ids); FEq "user_id" (BOid uid)] t
  = (mem_oid (_id t) ids && N.eqb (user_id t) uid).
Proof.
  unfold Mongo.matches; simpl.
  change (get_field "_id" t) with (BOid (_id t)).
  change (get_field "user_id" t) with (BOid (user_id t)).
  now rewrite existsb_bson_oid, bson_eqb_oid, andb_true_r.
Qed.

Lemma child_ids_spec (s : store) (uid x c : ObjectId) :
  In c (child_ids s uid x) <-> parent_edge s uid c x.
Proof.
  unfold child_ids, Mongo.find, parent_edge; rewrite in_map_iff; split.
  - intros [t [E H]]. apply filter_In in H as [H M].
    apply children_of_true in M as [P U]. now exists t.
  - intros [t [H [E [U P]]]]. exists t; split; [assumption|].
    apply filter_In; split; [assumption|]. now apply children_of_true.
Qed.

Lemma find_one_Some (flt : list cond) (s : store) (t : Task) :
  Mongo.find_one flt s = Some t -> In t s /\ Mongo.matches flt t = true.
Proof. apply find_some. Qed.

Lemma find_one_None (flt : list cond) (s : store) :
  Mongo.find_one flt s = None -> forall t, In t s -> Mongo.matches flt t = false.
Proof. apply find_none. Qed.

Lemma find_one_exists (flt : list cond) (s : store) (t : Task) :
  In t s -> Mongo.matches flt t = true -> exists t', Mongo.find_one flt s = Some t'.
Proof.
  intros H M. destruct (Mongo.find_one flt s) as [t'|] eqn:E; [now exists t'|].
  rewrite (find_one_None _ _ E t H) in M; discriminate.
Qed.

(** [list.pop()] *)
Lemma pop_snoc {A : Type} (l : list A) (x : A) : pop (l ++ [x]) = Some (l, x).
Proof. unfold pop. rewrite rev_app_distr; simpl. now rewrite rev_involutive. Qed.

Lemma pop_nil {A : Type} : pop (@nil A) = None.
Proof. reflexivity. Qed.

Lemma pop_Some {A : Type} (l r : list A) (x : A) : pop l = Some (r, x) -> l = r ++ [x].
Proof.
  destruct l as [|a l'] using rev_ind.
  - discriminate.
  - rewrite pop_snoc. intros E; now inversion E.
Qed.

Lemma pop_None {A : Type} (l : list A) : pop l = None -> l = [].
Proof.
  destruct l as [|a l'] using rev_ind; [reflexivity|].
  rewrite pop_snoc; discriminate.
Qed.

(* ================================================================== *)
(** ** Descendant collection *)
(* ================================================================== *)

Section Collect.

Variables (s : store) (uid : ObjectId).

Lemma collect_loop_done (fuel : nat) (collected : list ObjectId) :
  collect_loop (S fuel) s uid collected [] = Some collected.
Proof. reflexivity. Qed.

Lemma collect_loop_step (fuel : nat) (collected frontier : list ObjectId) (cur : ObjectId) :
  collect_loop (S fuel) s uid collected (frontier ++ [cur])
  = collect_loop fuel s uid (collected ++ child_ids s uid cur)
      (frontier ++ child_ids s uid cur).
Proof. simpl. rewrite pop_snoc. reflexivity. Qed.

(** More fuel does not change a result. *)
Lemma collect_loop_fuel (fuel : nat) :
  forall extra collected frontier l,
    collect_loop fuel s uid collected frontier = Some l ->
    collect_loop (fuel + extra) s uid collected frontier = Some l.
Proof.
  induction fuel as [|fuel IH]; intros extra C F l H; [discriminate|].
  destruct F as [|cur F'] using rev_ind.
  - simpl in *. assumption.
  - clear IHF'. change (S fuel + extra) with (S (fuel + extra)).
    rewrite collect_loop_step in *. now apply IH.
Qed.

(** Everything collected descends from the root. *)
Lemma collect_loop_sound (root : ObjectId) (fuel : nat) :
  forall collected frontier l,
    collect_loop fuel s uid collected frontier = Some l ->
    (forall y, In y collected -> descends s uid y root) ->
    (forall y, In y frontier -> descends s uid y root) ->
    forall y, In y l -> descends s uid y root.
Proof.
  induction fuel as [|fuel IH]; intros C F l H HC HF; [discriminate|].
  destruct F as [|cur F'] using rev_ind.
  - simpl in H. inversion H; subst. assumption.
  - clear IHF'. rewrite collect_loop_step in H.
    assert (Hch : forall c, In c (child_ids s uid cur) -> descends s uid c root).
    { intros c Hc. apply child_ids_spec in Hc.
      apply rt_trans with cur; [now apply rt_step|].
      apply HF, in_or_app; right; now left. }
    apply (IH _ _ _ H).
    + intros y Hy. apply in_app_or in Hy as [Hy|Hy]; auto.
    + intros y Hy. apply in_app_or in Hy as [Hy|Hy]; auto.
      apply HF, in_or_app; now left.
Qed.

(** What is collected holds the collected prefix and is closed under
    children, as long as every collected id whose children are not yet
    collected waits in the frontier. *)
Lemma collect_loop_closed (fuel : nat) :
  forall collected frontier l,
    collect_loop fuel s uid collected frontier = Some l ->
    (forall z, In z collected ->
       In z frontier \/ forall c, parent_edge s uid c z -> In c collected) ->
    incl collected l /\
    (forall z, In z l -> forall c, parent_edge s uid c z -> In c l).
Proof.
  induction fuel as [|fuel IH]; intros C F l H Inv; [discriminate|].
  destruct F as [|cur F'] using rev_ind.
  - simpl in H. inversion H; subst. split; [apply incl_refl|].
    intros z Hz c Hc. destruct (Inv z Hz) as [[]|K]; auto.
  - clear IHF'. rewrite collect_loop_step in H.
    apply IH in H.
    + destruct H as [Hincl Hclosed]. split; [|assumption].
      intros z Hz. apply Hincl, in_or_app; now left.
    + intros z Hz. apply in_app_or in Hz as [Hz|Hz].
      * destruct (Inv z Hz) as [Hf|K].
        -- apply in_app_or in Hf as [Hf|[E|[]]].
           ++ left. apply in_or_app; now left.
           ++ subst z. right. intros c Hc. apply in_or_app; right.
              now apply child_ids_spec.
        -- right. intros c Hc. apply in_or_app; left; auto.
      * left. apply in_or_app; now right.
Qed.

(** The ids [_collect_descendants] returns: the root and exactly the ids
    that descend from it. *)
Lemma collect_loop_spec (root : ObjectId) (fuel : nat) (l : list ObjectId) :
  collect_loop fuel s uid [root] [root] = Some l ->
  forall y, In y l <-> descends s uid y root.
Proof.
  intros H y; split.
  - apply (collect_loop_sound root fuel _ _ _ H).
    + intros z [E|[]]; subst; apply rt_refl.
    + intros z [E|[]]; subst; apply rt_refl.
  - intros D. apply collect_loop_closed in H.
    + destruct H as [Hincl Hclosed].
      apply clos_rt_rt1n in D.
      induction D as [x | x z w Hxz Hzw IHD].
      * apply Hincl; now left.
      * apply (Hclosed z); auto.
    + intros z [E|[]]; left; now left.
Qed.

(** The ids at the end of the frontier are served, with everything
    below them, before the loop comes back to the rest of the frontier. *)
Lemma collect_loop_subtrees (d : nat) :
  forall todo, (forall x, In x todo -> shallow s uid d x) ->
    exists n below, forall fuel collected frontier,
      collect_loop (n + fuel) s uid collected (frontier ++ todo)
      = collect_loop fuel s uid (collected ++ below) frontier.
Proof.
  induction d as [|d IHd]; intros todo Hsh.
  - destruct todo as [|x r].
    + exists 0, []. intros; simpl. now rewrite !app_nil_r.
    + destruct (Hsh x (or_introl eq_refl)).
  - induction todo as [|x todo' IHt] using rev_ind.
    + exists 0, []. intros; simpl. now rewrite !app_nil_r.
    + destruct (IHd (child_ids s uid x)) as [n1 [X1 E1]].
      { intros c Hc. apply (Hsh x); [apply in_or_app; right; now left | exact Hc]. }
      destruct IHt as [n2 [X2 E2]].
      { intros y Hy. apply Hsh, in_or_app; now left. }
      exists (S (n1 + n2)), (child_ids s uid x ++ X1 ++ X2).
      intros fuel C F.
      change (S (n1 + n2) + fuel) with (S (n1 + n2 + fuel)).
      rewrite app_assoc, collect_loop_step.
      rewrite <- Nat.add_assoc, E1, E2.
      now rewrite <- !app_assoc.
Qed.

(** In a collection without a cycle, chains of children are no longer
    than the collection. *)
Lemma acyclic_shallow (Hacyc : acyclic s uid) (d : nat) :
  forall above x,
    NoDup above -> incl above (map _id s) ->
    (forall p, In p above -> descends s uid x p) ->
    List.length above + d = S (List.length s) ->
    shallow s uid d x.
Proof.
  induction d as [|d IH]; intros P x Hnd Hin Hdesc Hlen.
  - apply NoDup_incl_length in Hin; [|assumption].
    rewrite length_map in Hin. lia.
  - simpl. intros c Hc. apply child_ids_spec in Hc.
    apply (IH (c :: P)).
    + constructor; [|assumption].
      intros HcP. apply (Hacyc x).
      apply clos_rt_t with c; [now apply Hdesc | now apply t_step].
    + intros p [E|Hp]; [|now apply Hin].
      subst p. destruct Hc as [t [Ht [Eid _]]].
      rewrite <- Eid. now apply in_map.
    + intros p [E|Hp].
      * subst p. apply rt_refl.
      * apply rt_trans with x; [now apply rt_step | now apply Hdesc].
    + simpl; lia.
Qed.

(** Below a root that reaches no cycle, chains of children are no longer
    than the collection. *)
Lemma loop_free_shallow (root : ObjectId) (Hfree : loop_free_below s uid root)
    (d : nat) :
  forall above x,
    descends s uid x root ->
    NoDup above -> incl above (map _id s) ->
    (forall p, In p above -> descends s uid x p) ->
    List.length above + d = S (List.length s) ->
    shallow s uid d x.
Proof.
  induction d as [|d IH]; intros P x Hx Hnd Hin Hdesc Hlen.
  - apply NoDup_incl_length in Hin; [|assumption].
    rewrite length_map in Hin. lia.
  - simpl. intros c Hc. apply child_ids_spec in Hc.
    apply (IH (c :: P)).
    + apply rt_trans with x; [now apply rt_step | assumption].
    + constructor; [|assumption].
      intros HcP. apply (Hfree x Hx).
      apply clos_rt_t with c; [now apply Hdesc | now apply t_step].
    + intros p [E|Hp]; [|now apply Hin].
      subst p. destruct Hc as [t [Ht [Eid _]]].
      rewrite <- Eid. now apply in_map.
    + intros p [E|Hp].
      * subst p. apply rt_refl.
      * apply rt_trans with x; [now apply rt_step | now apply Hdesc].
    + simpl; lia.
Qed.

(** [_collect_descendants] returns when no task below the root is its
    own ancestor. *)
Lemma collect_loop_terminates_below (root : ObjectId) :
  loop_free_below s uid root ->
  exists fuel l, collect_loop fuel s uid [root] [root] = Some l.
Proof.
  intros Hfree.
  destruct (collect_loop_subtrees (S (List.length s)) [root]) as [n [X E]].
  { intros x [Ex|[]]. subst x.
    apply (loop_free_shallow root Hfree _ []); simpl; auto using NoDup_nil.
    - apply rt_refl.
    - intros p [].
    - intros p []. }
  exists (n + 1), ([root] ++ X).
  rewrite <- (app_nil_l [root]) at 2. rewrite E. reflexivity.
Qed.

(** A chain of children can be cut short, and grows by one at a parent. *)
Lemma deep_less (k : nat) : forall x, deep s uid (S k) x -> deep s uid k x.
Proof.
  induction k as [|k IH]; intros x H; [exact I|].
  destruct H as [c [Hc H]]. exists c. split; [assumption | now apply IH].
Qed.

Lemma deep_parent (k : nat) (c p : ObjectId) :
  parent_edge s uid c p -> deep s uid k c -> deep s uid (S k) p.
Proof.
  intros E H. exists c. split; [now apply child_ids_spec | assumption].
Qed.

Lemma deep_above (k : nat) (y x : ObjectId) :
  descends s uid y x -> deep s uid k y -> deep s uid k x.
Proof.
  intros D. apply clos_rt_rt1n in D. induction D as [x | y z x E _ IH]; [auto|].
  intros H. apply IH. apply deep_less. now apply deep_parent with y.
Qed.

(** Below a task that is its own ancestor the chains have every length. *)
Lemma cycle_deep (x : ObjectId) :
  ancestor s uid x x -> forall k, deep s uid k x.
Proof.
  intros Hc k. induction k as [|k IH]; [exact I|].
  apply clos_trans_t1n in Hc. destruct Hc as [z E | z w E Hzw].
  - now apply deep_parent with x.
  - apply deep_above with z.
    + apply clos_t_clos_rt. now apply clos_t1n_trans.
    + now apply deep_parent with x.
Qed.

(** The loop needs more fuel than the longest chain below the frontier. *)
Lemma collect_loop_needs_fuel (fuel : nat) :
  forall collected frontier l y k,
    collect_loop fuel s uid collected frontier = Some l ->
    In y frontier -> deep s uid k y -> k < fuel.
Proof.
  induction fuel as [|fuel IH]; intros C F l y k H Hy Hk; [discriminate|].
  destruct F as [|cur F'] using rev_ind; [destruct Hy|].
  clear IHF'. rewrite collect_loop_step in H.
  apply in_app_or in Hy as [Hy|[<-|[]]].
  - apply Nat.lt_lt_succ_r. apply (IH _ _ _ y k H); [|assumption].
    apply in_or_app. now left.
  - destruct k as [|k]; [lia|].
    destruct Hk as [c [Hc Hk]].
    apply -> Nat.succ_lt_mono. apply (IH _ _ _ c k H); [|assumption].
    apply in_or_app. now right.
Qed.

(** [_collect_descendants] never returns when a task below the root is
    its own ancestor. *)
Lemma collect_loop_diverges (root x : ObjectId) :
  descends s uid x root -> ancestor s uid x x ->
  forall fuel, collect_loop fuel s uid [root] [root] = None.
Proof.
  intros Hx Hc fuel.
  destruct (collect_loop fuel s uid [root] [root]) as [l|] eqn:E; [|reflexivity].
  assert (K : fuel < fuel).
  { apply (collect_loop_needs_fuel fuel [root] [root] l root fuel E); [now left|].
    apply deep_above with x; [assumption | now apply cycle_deep]. }
  lia.
Qed.

(** [_collect_descendants] returns on a collection without a cycle. *)
Lemma collect_loop_terminates (Hacyc : acyclic s uid) (root : ObjectId) :
  exists fuel l, collect_loop fuel s uid [root] [root] = Some l.
Proof.
  destruct (collect_loop_subtrees (S (List.length s)) [root]) as [n [X E]].
  { intros x [Ex|[]]. subst x.
    apply (acyclic_shallow Hacyc _ []); simpl; auto using NoDup_nil.
    - intros p [].
    - intros p []. }
  exists (n + 1), ([root] ++ X).
  rewrite <- (app_nil_l [root]) at 2. rewrite E. reflexivity.
Qed.

End Collect.

(* ================================================================== *)
(** ** What each request leaves *)
(* ================================================================== *)

Lemma find_one_owned_Some (s : store) (uid oid : ObjectId) (t : Task) :
  Mongo.find_one (owned_by uid oid) s = Some t -> owns s uid oid.
Proof.
  intros H. apply find_one_Some in H as [H M].
  apply owned_by_true in M as [A B]. now exists t.
Qed.

Lemma find_one_owned_None (s : store) (uid oid : ObjectId) :
  Mongo.find_one (owned_by uid oid) s = None <-> ~ owns s uid oid.
Proof.
  split.
  - intros H [t [Ht [A B]]].
    pose proof (find_one_None _ _ H t Ht) as M.
    assert (Mongo.matches (owned_by uid oid) t = true) by now apply owned_by_true.
    congruence.
  - intros H. destruct (Mongo.find_one (owned_by uid oid) s) eqn:E; [|reflexivity].
    destruct H. eauto using find_one_owned_Some.
Qed.

Lemma patch_leaves (fuel : nat) (uid : ObjectId) (task_id : string) (u : Updates)
    (now1 now2 : string) (s s' : store) :
  leaves (TaskResource_patch fuel uid task_id u now1 now2) s s' ->
  s' = s \/
  exists oid pops,
    owns s uid oid /\ parent_ops_ok fuel s uid oid pops /\
    s' = Mongo.update_one (owned_by uid oid)
           (field_set_ops u now1 ++ pops ++ [SetUpdatedAt now2]) s.
Proof.
  intros [o H]. unfold TaskResource_patch in H.
  unfold bind, lift, query, modify, ret, raise, crash in H.
  destruct (task_oid task_id) as [oid| |]; try (inversion H; now left).
  destruct (Mongo.find_one (owned_by uid oid) s) as [doc|] eqn:Edoc;
    [|inversion H; now left].
  apply find_one_owned_Some in Edoc.
  destruct (u_parent_id u) as [np|].
  - destruct (_oid np) as [[p|]| |]; try (inversion H; now left).
    + destruct (Mongo.find_one (owned_by uid p) s) as [par|] eqn:Epar;
        [|inversion H; now left].
      apply find_one_owned_Some in Epar.
      unfold _prevent_circular_parent in H.
      destruct (N.eqb_spec oid p) as [E|NE]; [inversion H; now left|].
      unfold bind, _collect_descendants, fuelled, raise, ret in H.
      destruct (collect_loop fuel s uid [oid] [oid]) as [l|] eqn:El; [|discriminate].
      destruct (mem_oid p l) eqn:Em; [inversion H; now left|].
      right. exists oid, [SetParentId (Some p)]. split; [assumption|]. split.
      * apply pops_parent with l; auto.
        intros K. apply mem_oid_In in K. congruence.
      * simpl in H. destruct (Mongo.find_one [FEq "_id" (BOid oid)] _) in H; inversion H; reflexivity.
    + right. exists oid, [SetParentId None]. split; [assumption|]. split; [constructor|].
      simpl in H.
      destruct (Mongo.find_one [FEq "_id" (BOid oid)] _) in H; inversion H; reflexivity.
  - right. exists oid, []. split; [assumption|]. split; [constructor|].
    simpl in H. destruct (Mongo.find_one [FEq "_id" (BOid oid)] _) in H; inversion H; reflexivity.
Qed.

Lemma post_leaves (uid : ObjectId) (b : TaskBase) (new_id : ObjectId) (now : string)
    (s s' : store) :
  leaves (TasksCollection_post uid b new_id now) s s' ->
  s' = s \/
  exists doc,
    s' = s ++ [doc] /\ _id doc = new_id /\ user_id doc = uid /\
    (parent_id doc = None \/ exists p, parent_id doc = Some p /\ owns s uid p) /\
    completion_consistent doc.
Proof.
  intros [o H]. unfold TasksCollection_post in H.
  unfold bind, lift, query, modify, ret, raise, Mongo.insert_one in H.
  destruct (_oid (b_parent_id b)) as [[p|]| |]; try (inversion H; now left).
  - destruct (Mongo.find_one (owned_by uid p) s) as [par|] eqn:Epar;
      [|inversion H; now left].
    apply find_one_owned_Some in Epar.
    right. inversion H; subst. eexists; split; [reflexivity|]. simpl.
    repeat split; eauto;
      destruct (b_completed b); intros; (discriminate || reflexivity).
  - right. inversion H; subst. eexists; split; [reflexivity|]. simpl.
    repeat split; eauto;
      destruct (b_completed b); intros; (discriminate || reflexivity).
Qed.

Lemma has_children_false (uid oid : ObjectId) (s : store) :
  (0 <? Mongo.count_documents_limit1 (children_of uid oid) s)%Z = false ->
  child_ids s uid oid = [].
Proof.
  unfold Mongo.count_documents_limit1, child_ids.
  destruct (Mongo.find (children_of uid oid) s); [reflexivity|].
  simpl. discriminate.
Qed.

Lemma has_children_true (uid oid : ObjectId) (s : store) :
  (0 <? Mongo.count_documents_limit1 (children_of uid oid) s)%Z = true <->
  exists c, parent_edge s uid c oid.
Proof.
  unfold Mongo.count_documents_limit1; split.
  - intros H.
    destruct (Mongo.find (children_of uid oid) s) as [|t r] eqn:E; [discriminate|].
    exists (_id t). apply child_ids_spec. unfold child_ids. rewrite E. now left.
  - intros [c Hc]. apply child_ids_spec in Hc. unfold child_ids in Hc.
    destruct (Mongo.find (children_of uid oid) s); [destruct Hc | reflexivity].
Qed.

(** A delete leaves the collection as it was (an error), or without the
    owner's documents whose id was collected (cascade), or without the
    one document (no cascade, no children). *)
Lemma delete_leaves (fuel : nat) (uid : ObjectId) (task_id : string)
    (cascade_arg : option string) (s s' : store) :
  leaves (TaskResource_delete fuel uid task_id cascade_arg) s s' ->
  s' = s \/
  (exists oid l,
     owns s uid oid /\ collect_loop fuel s uid [oid] [oid] = Some l /\
     s' = Mongo.delete_many [FIn "_id" (map BOid l); FEq "user_id" (BOid uid)] s) \/
  (exists oid,
     owns s uid oid /\ child_ids s uid oid = [] /\
     s' = Mongo.delete_one (owned_by uid oid) s).
Proof.
  intros [o H]. unfold TaskResource_delete in H.
  unfold bind, lift, query, modify, ret, raise in H.
  destruct (task_oid task_id) as [oid| |]; try (inversion H; now left).
  destruct (Mongo.find_one (owned_by uid oid) s) as [doc|] eqn:Edoc;
    [|inversion H; now left].
  apply find_one_owned_Some in Edoc.
  destruct (flag_arg cascade_arg).
  - unfold bind, _collect_descendants, fuelled in H.
    destruct (collect_loop fuel s uid [oid] [oid]) as [l|] eqn:El; [|discriminate].
    right; left. exists oid, l. inversion H; auto.
  - unfold _has_children, bind, query, ret in H.
    destruct (0 <? Mongo.count_documents_limit1 (children_of uid oid) s)%Z eqn:Ec.
    + inversion H; now left.
    + right; right. exists oid. apply has_children_false in Ec.
      inversion H; auto.
Qed.

Lemma complete_leaves (fuel : nat) (uid : ObjectId) (task_id : string)
    (when : string) (s s' : store) :
  leaves (TaskComplete_post fuel uid task_id when) s s' ->
  s' = s \/
  exists oid l,
    owns s uid oid /\ collect_loop fuel s uid [oid] [oid] = Some l /\
    s' = Mongo.update_many [FIn "_id" (map BOid l); FEq "user_id" (BOid uid)]
           [SetCompleted true; SetCompletedAt (Some when); SetUpdatedAt when] s.
Proof.
  intros [o H]. unfold TaskComplete_post in H.
  unfold bind, lift, query, modify, ret, raise, crash in H.
  destruct (task_oid task_id) as [oid| |]; try (inversion H; now left).
  destruct (Mongo.find_one (owned_by uid oid) s) as [doc|] eqn:Edoc;
    [|inversion H; now left].
  apply find_one_owned_Some in Edoc.
  unfold bind, _collect_descendants, fuelled in H.
  destruct (collect_loop fuel s uid [oid] [oid]) as [l|] eqn:El; [|discriminate].
  right. exists oid, l. split; [assumption|]. split; [assumption|].
  destruct (Mongo.find_one [FEq "_id" (BOid oid)] _) in H; inversion H; reflexivity.
Qed.

(* ================================================================== *)
(** ** Writes: what they keep and what they change *)
(* ================================================================== *)

Lemma apply_assign_keys (a : assign) (t : Task) :
  _id (Mongo.apply_assign a t) = _id t /\ user_id (Mongo.apply_assign a t) = user_id t.
Proof. destruct a; simpl; auto. Qed.

Lemma apply_set_keys (ops : list assign) (t : Task) :
  _id (Mongo.apply_set ops t) = _id t /\ user_id (Mongo.apply_set ops t) = user_id t.
Proof.
  unfold Mongo.apply_set. revert t.
  induction ops as [|a ops IH]; intros t; simpl; [auto|].
  destruct (IH (Mongo.apply_assign a t)) as [A B].
  destruct (apply_assign_keys a t) as [C D]. split; congruence.
Qed.

Lemma apply_set_app (ops1 ops2 : list assign) (t : Task) :
  Mongo.apply_set (ops1 ++ ops2) t = Mongo.apply_set ops2 (Mongo.apply_set ops1 t).
Proof. unfold Mongo.apply_set. apply fold_left_app. Qed.

Lemma field_set_ops_parent (u : Updates) (now : string) (t : Task) :
  parent_id (Mongo.apply_set (field_set_ops u now) t) = parent_id t.
Proof.
  destruct u as [a b c d e f g]. unfold field_set_ops; simpl.
  destruct a, b, c, d, e, g; reflexivity.
Qed.

Lemma field_set_ops_consistent (u : Updates) (now : string) (t : Task) :
  completion_consistent t ->
  completion_consistent (Mongo.apply_set (field_set_ops u now) t).
Proof.
  destruct u as [a b c d e f g]. unfold field_set_ops, completion_consistent; simpl.
  destruct g as [[|]|]; destruct a, b, c, d, e; simpl; intros H;
    try exact H; split; intros; (discriminate || reflexivity).
Qed.

(** The document a patch writes: the keys stay, the parent is the new one
    when the payload has the key, the completion fields stay consistent. *)
Lemma patched_keys (u : Updates) (now1 now2 : string) (pops : list assign) (t : Task) :
  let t' := Mongo.apply_set (field_set_ops u now1 ++ pops ++ [SetUpdatedAt now2]) t in
  _id t' = _id t /\ user_id t' = user_id t.
Proof. apply apply_set_keys. Qed.

Lemma patched_parent (fuel : nat) (s : store) (uid oid : ObjectId) (u : Updates)
    (now1 now2 : string) (pops : list assign) (t : Task) :
  parent_ops_ok fuel s uid oid pops ->
  let t' := Mongo.apply_set (field_set_ops u now1 ++ pops ++ [SetUpdatedAt now2]) t in
  match pops with
  | [SetParentId v] => parent_id t' = v
  | _ => parent_id t' = parent_id t
  end.
Proof.
  intros H; simpl. rewrite !apply_set_app.
  destruct H; simpl; try reflexivity; apply field_set_ops_parent.
Qed.

Lemma patched_consistent (fuel : nat) (s : store) (uid oid : ObjectId) (u : Updates)
    (now1 now2 : string) (pops : list assign) (t : Task) :
  parent_ops_ok fuel s uid oid pops ->
  completion_consistent t ->
  completion_consistent
    (Mongo.apply_set (field_set_ops u now1 ++ pops ++ [SetUpdatedAt now2]) t).
Proof.
  intros H C. rewrite !apply_set_app.
  apply (field_set_ops_consistent u now1) in C.
  destruct H; simpl; exact C.
Qed.

Lemma update_one_In (flt : list cond) (ops : list assign) (s : store) (t' : Task) :
  In t' (Mongo.update_one flt ops s) ->
  In t' s \/ exists t, In t s /\ Mongo.matches flt t = true /\ t' = Mongo.apply_set ops t.
Proof.
  induction s as [|a r IH]; simpl; [tauto|].
  destruct (Mongo.matches flt a) eqn:M; simpl.
  - intros [E|H]; [right; exists a; auto | left; auto].
  - intros [E|H]; [left; auto|].
    destruct (IH H) as [K|[t [K1 K2]]]; [left; auto | right; exists t; auto].
Qed.

Lemma owns_key (s : store) (uid oid : ObjectId) :
  owns s uid oid <-> In (oid, uid) (map key s).
Proof.
  unfold owns; rewrite in_map_iff; split.
  - intros [t [H [A B]]]. exists t; split; [|assumption]. unfold key; congruence.
  - intros [t [E H]]. exists t. unfold key in E. inversion E; auto.
Qed.

Lemma update_one_keys (flt : list cond) (ops : list assign) (s : store) :
  map key (Mongo.update_one flt ops s) = map key s.
Proof.
  induction s as [|a r IH]; simpl; [reflexivity|].
  destruct (Mongo.matches flt a); simpl; [|now rewrite IH].
  unfold key at 1. destruct (apply_set_keys ops a) as [A B]. now rewrite A, B.
Qed.

Lemma update_many_keys (flt : list cond) (ops : list assign) (s : store) :
  map key (Mongo.update_many flt ops s) = map key s.
Proof.
  unfold Mongo.update_many. rewrite map_map. apply map_ext.
  intros a. destruct (Mongo.matches flt a); [|reflexivity].
  unfold key. destruct (apply_set_keys ops a) as [A B]. now rewrite A, B.
Qed.

Lemma ids_of_keys (s : store) : map _id s = map fst (map key s).
Proof. rewrite map_map. reflexivity. Qed.

Lemma delete_one_In (flt : list cond) (s : store) (t : Task) :
  In t (Mongo.delete_one flt s) -> In t s.
Proof.
  induction s as [|a r IH]; simpl; [tauto|].
  destruct (Mongo.matches flt a); simpl; [auto|]. intros [E|H]; auto.
Qed.

Lemma delete_one_keeps (flt : list cond) (s : store) (t : Task) :
  In t s -> In t (Mongo.delete_one flt s) \/ Mongo.matches flt t = true.
Proof.
  induction s as [|a r IH]; simpl; [tauto|].
  destruct (Mongo.matches flt a) eqn:M; simpl.
  - intros [E|H]; [subst; auto | auto].
  - intros [E|H]; [auto|]. destruct (IH H); auto.
Qed.

Lemma delete_one_ids (flt : list cond) (s : store) :
  NoDup (map _id s) -> NoDup (map _id (Mongo.delete_one flt s)).
Proof.
  induction s as [|a r IH]; simpl; [auto|].
  intros H. inversion H; subst.
  destruct (Mongo.matches flt a); simpl; [assumption|].
  constructor; [|auto].
  intros K. apply in_map_iff in K as [t [E K]].
  apply delete_one_In in K. apply H2. rewrite <- E. now apply in_map.
Qed.

Lemma filter_ids (f : Task -> bool) (s : store) :
  NoDup (map _id s) -> NoDup (map _id (filter f s)).
Proof.
  induction s as [|a r IH]; simpl; [auto|].
  intros H. inversion H; subst.
  destruct (f a); simpl; [|auto].
  constructor; [|auto].
  intros K. apply in_map_iff in K as [t [E K]].
  apply filter_In in K as [K _]. apply H2. rewrite <- E. now apply in_map.
Qed.

(* ================================================================== *)
(** ** Cycles *)
(* ================================================================== *)

Section Edges.

Variable A : Type.
Variables R R' : relation A.

Lemma clos_trans_sub :
  (forall x y, R' x y -> R x y) ->
  forall x y, clos_trans A R' x y -> clos_trans A R x y.
Proof.
  intros Hsub x y H. induction H as [x y H | x y z _ IH1 _ IH2].
  - apply t_step; auto.
  - now apply t_trans with y.
Qed.

(** A relation without a cycle stays so when the edge from [a] to [b] is
    added, unless [a] was already reached from [b]. *)
Lemma add_edge_no_cycle (a b : A) :
  (forall x y, R' x y -> R x y \/ (x = a /\ y = b)) ->
  (forall x, ~ clos_trans A R x x) ->
  ~ clos_refl_trans A R b a ->
  forall x, ~ clos_trans A R' x x.
Proof.
  intros Hsub Hacyc Hnot.
  assert (Hpath : forall x y, clos_trans A R' x y ->
            clos_trans A R x y \/
            (clos_refl_trans A R x a /\ clos_refl_trans A R b y)).
  { intros x y H. apply clos_trans_t1n in H.
    induction H as [x y H | x z y H _ IH].
    - destruct (Hsub _ _ H) as [K|[-> ->]].
      + left; now apply t_step.
      + right; split; apply rt_refl.
    - destruct (Hsub _ _ H) as [K|[-> ->]].
      + destruct IH as [IH|[IH1 IH2]].
        * left. apply t_trans with z; [now apply t_step | assumption].
        * right. split; [|assumption].
          apply rt_trans with z; [now apply rt_step | assumption].
      + right. split; [apply rt_refl|].
        destruct IH as [IH|[IH1 IH2]]; [|assumption].
        now apply clos_t_clos_rt. }
  intros x H. destruct (Hpath _ _ H) as [K|[K1 K2]].
  - exact (Hacyc x K).
  - apply Hnot. now apply rt_trans with x.
Qed.

End Edges.

Lemma parent_edge_id (s : store) (uid c p : ObjectId) :
  parent_edge s uid c p -> owns s uid c.
Proof. intros [t [H [A [B _]]]]. now exists t. Qed.

Lemma owns_id (s : store) (uid oid : ObjectId) : owns s uid oid -> In oid (map _id s).
Proof. intros [t [H [A _]]]. rewrite <- A. now apply in_map. Qed.

(** With every parent stored, nothing descends from an id that is not. *)
Lemma descends_fresh (s : store) (uid x n : ObjectId) :
  parents_owned s -> ~ In n (map _id s) -> descends s uid x n -> x = n.
Proof.
  intros Hpar Hn D. apply clos_rt_rtn1 in D.
  destruct D as [|y z [t [Ht [_ [_ P]]]] _]; [reflexivity|].
  destruct (Hpar t z Ht P) as [t' [Ht' [E _]]].
  destruct Hn. rewrite <- E. now apply in_map.
Qed.

(** The parent edges after an insert: the old ones and the one of the
    new document. *)
Lemma create_edges (s : store) (doc : Task) (uid c p : ObjectId) :
  parent_edge (s ++ [doc]) uid c p ->
  parent_edge s uid c p \/
  (c = _id doc /\ uid = user_id doc /\ parent_id doc = Some p).
Proof.
  intros [t [H [A [B P]]]]. apply in_app_or in H as [H|[E|[]]].
  - left. now exists t.
  - subst t. right. auto.
Qed.

Lemma create_acyclic (s : store) (doc : Task) (uid : ObjectId) :
  parents_owned s -> ~ In (_id doc) (map _id s) ->
  (parent_id doc = None \/ exists p, parent_id doc = Some p /\ owns s (user_id doc) p) ->
  acyclic s uid -> acyclic (s ++ [doc]) uid.
Proof.
  intros Hpar Hfresh Hp Hacyc.
  destruct Hp as [Hp|[p [Hp Hown]]].
  - intros x H. apply (Hacyc x). revert H. apply clos_trans_sub.
    intros a b E. apply create_edges in E as [E|[_ [_ E]]]; [assumption|congruence].
  - unfold acyclic, ancestor.
    apply add_edge_no_cycle with (R := parent_edge s uid) (a := _id doc) (b := p).
    + intros a b E. apply create_edges in E as [E|[E1 [_ E2]]]; [now left|].
      right. split; congruence.
    + exact Hacyc.
    + intros D. apply descends_fresh in D; auto.
      apply Hfresh. rewrite <- D. eapply owns_id; eauto.
Qed.

Lemma patch_edges (fuel : nat) (s : store) (uid oid : ObjectId) (u : Updates)
    (now1 now2 : string) (pops : list assign) (uid' c p : ObjectId) :
  parent_ops_ok fuel s uid oid pops ->
  parent_edge
    (Mongo.update_one (owned_by uid oid)
       (field_set_ops u now1 ++ pops ++ [SetUpdatedAt now2]) s) uid' c p ->
  parent_edge s uid' c p \/
  (uid' = uid /\ c = oid /\ pops = [SetParentId (Some p)]).
Proof.
  intros Hok [t' [H [A [B P]]]].
  apply update_one_In in H as [H|[t [H [M E]]]].
  - left. now exists t'.
  - apply owned_by_true in M as [M1 M2].
    pose proof (patched_keys u now1 now2 pops t) as [K1 K2].
    pose proof (patched_parent fuel s uid oid u now1 now2 pops t Hok) as K3.
    simpl in K1, K2, K3. rewrite <- E in K1, K2, K3.
    destruct Hok.
    + left. exists t. repeat split; congruence.
    + congruence.
    + right. repeat split; congruence.
Qed.

Lemma patch_acyclic (fuel : nat) (s : store) (uid oid : ObjectId) (u : Updates)
    (now1 now2 : string) (pops : list assign) (uid' : ObjectId) :
  parent_ops_ok fuel s uid oid pops ->
  acyclic s uid' ->
  acyclic
    (Mongo.update_one (owned_by uid oid)
       (field_set_ops u now1 ++ pops ++ [SetUpdatedAt now2]) s) uid'.
Proof.
  intros Hok Hacyc.
  inversion Hok as [E | E | p l Hown Hne Hl Hnot E].
  - intros x H. apply (Hacyc x). revert H. apply clos_trans_sub.
    intros a b K. rewrite <- E in Hok.
    apply (patch_edges _ _ _ _ _ _ _ _ _ _ _ Hok) in K as [K|[_ [_ K]]];
      [assumption | discriminate].
  - intros x H. apply (Hacyc x). revert H. apply clos_trans_sub.
    intros a b K. rewrite <- E in Hok.
    apply (patch_edges _ _ _ _ _ _ _ _ _ _ _ Hok) in K as [K|[_ [_ K]]];
      [assumption | discriminate].
  - destruct (N.eq_dec uid' uid) as [->|Hu].
    + unfold acyclic, ancestor.
      apply add_edge_no_cycle with (R := parent_edge s uid) (a := oid) (b := p).
      * intros a b K. rewrite <- E in Hok.
        apply (patch_edges _ _ _ _ _ _ _ _ _ _ _ Hok) in K as [K|[_ [K1 K2]]];
          [now left|]. right. split; congruence.
      * exact Hacyc.
      * intros D. apply Hnot. now apply (collect_loop_spec s uid oid fuel l Hl).
    + intros x H. apply (Hacyc x). revert H. apply clos_trans_sub.
      intros a b K. rewrite <- E in Hok.
      apply (patch_edges _ _ _ _ _ _ _ _ _ _ _ Hok) in K as [K|[K _]];
        [assumption | contradiction].
Qed.

(* ================================================================== *)
(** ** Reachable collections are well formed *)
(* ================================================================== *)

Lemma update_many_In (flt : list cond) (ops : list assign) (s : store) (t' : Task) :
  In t' (Mongo.update_many flt ops s) ->
  exists t, In t s /\ (t' = t \/ (Mongo.matches flt t = true /\ t' = Mongo.apply_set ops t)).
Proof.
  unfold Mongo.update_many. rewrite in_map_iff. intros [t [E H]].
  exists t. split; [assumption|].
  destruct (Mongo.matches flt t); [right | left]; auto.
Qed.

Lemma create_well_formed (s : store) (doc : Task) :
  ~ In (_id doc) (map _id s) ->
  (parent_id doc = None \/ exists p, parent_id doc = Some p /\ owns s (user_id doc) p) ->
  well_formed s -> well_formed (s ++ [doc]).
Proof.
  intros Hfresh Hp [Hu [Hpar Hacyc]]. split; [|split].
  - unfold unique_ids. rewrite map_app. apply NoDup_app; simpl.
    + assumption.
    + repeat constructor; auto.
    + intros a Ha [E|[]]. subst a. contradiction.
  - intros t p Ht P. apply in_app_or in Ht as [Ht|[E|[]]].
    + destruct (Hpar t p Ht P) as [t' [H1 H2]].
      exists t'. split; [apply in_or_app; now left | assumption].
    + subst t. destruct Hp as [Hp|[p' [Hp [t' [H1 [H2 H3]]]]]]; [congruence|].
      exists t'. split; [apply in_or_app; now left|]. split; congruence.
  - intros uid. apply create_acyclic; auto.
Qed.

Lemma patch_well_formed (fuel : nat) (s : store) (uid oid : ObjectId) (u : Updates)
    (now1 now2 : string) (pops : list assign) :
  parent_ops_ok fuel s uid oid pops ->
  well_formed s ->
  well_formed
    (Mongo.update_one (owned_by uid oid)
       (field_set_ops u now1 ++ pops ++ [SetUpdatedAt now2]) s).
Proof.
  intros Hok [Hu [Hpar Hacyc]]. split; [|split].
  - unfold unique_ids. now rewrite ids_of_keys, update_one_keys, <- ids_of_keys.
  - intros t' p Ht' P.
    assert (Hk : forall x y, owns s y x ->
              exists t2, In t2 (Mongo.update_one (owned_by uid oid)
                 (field_set_ops u now1 ++ pops ++ [SetUpdatedAt now2]) s)
                 /\ _id t2 = x /\ user_id t2 = y).
    { intros x y H. apply owns_key in H. rewrite <- (update_one_keys (owned_by uid oid)
        (field_set_ops u now1 ++ pops ++ [SetUpdatedAt now2])) in H.
      now apply owns_key in H. }
    apply update_one_In in Ht' as [H|[t [H [M E]]]].
    + apply Hk. destruct (Hpar t' p H P) as [t2 [H1 [H2 H3]]]. now exists t2.
    + apply owned_by_true in M as [M1 M2].
      pose proof (patched_keys u now1 now2 pops t) as [K1 K2].
      pose proof (patched_parent fuel s uid oid u now1 now2 pops t Hok) as K3.
      simpl in K1, K2, K3. rewrite <- E in K1, K2, K3.
      apply Hk. destruct Hok.
      * rewrite K2. destruct (Hpar t p H) as [t2 [H1 [H2 H3]]]; [congruence|].
        now exists t2.
      * congruence.
      * assert (p0 = p) by congruence. subst p0. rewrite K2, M2. assumption.
  - intros uid'. now apply patch_acyclic with fuel.
Qed.

Lemma sub_acyclic (s s' : store) (uid : ObjectId) :
  incl s' s -> acyclic s uid -> acyclic s' uid.
Proof.
  intros Hin Hacyc x H. apply (Hacyc x). revert H. apply clos_trans_sub.
  intros a b [t [Ht K]]. exists t. split; [now apply Hin | assumption].
Qed.

Lemma delete_many_well_formed (fuel : nat) (s : store) (uid oid : ObjectId)
    (l : list ObjectId) :
  collect_loop fuel s uid [oid] [oid] = Some l ->
  well_formed s ->
  well_formed (Mongo.delete_many [FIn "_id" (map BOid l); FEq "user_id" (BOid uid)] s).
Proof.
  intros Hl [Hu [Hpar Hacyc]]. unfold Mongo.delete_many. split; [|split].
  - now apply filter_ids.
  - intros t p Ht P. apply filter_In in Ht as [Ht Hm].
    destruct (Hpar t p Ht P) as [t' [H1 [H2 H3]]].
    exists t'. split; [|auto]. apply filter_In. split; [assumption|].
    rewrite matches_in_ids in *.
    destruct (mem_oid (_id t') l) eqn:Em; [|reflexivity].
    destruct (N.eqb_spec (user_id t') uid) as [Eu|]; [|reflexivity].
    exfalso. apply mem_oid_In in Em.
    assert (Hin : In (_id t) l).
    { apply (collect_loop_spec s uid oid fuel l Hl).
      apply rt_trans with p.
      - apply rt_step. exists t. repeat split; congruence.
      - apply (collect_loop_spec s uid oid fuel l Hl). congruence. }
    apply mem_oid_In in Hin. rewrite Hin in Hm.
    assert (Eu' : user_id t = uid) by congruence.
    apply N.eqb_eq in Eu'. rewrite Eu' in Hm. discriminate.
  - intros uid'. apply sub_acyclic with s; [apply incl_filter | auto].
Qed.

Lemma delete_one_well_formed (s : store) (uid oid : ObjectId) :
  child_ids s uid oid = [] ->
  well_formed s ->
  well_formed (Mongo.delete_one (owned_by uid oid) s).
Proof.
  intros Hch [Hu [Hpar Hacyc]]. split; [|split].
  - now apply delete_one_ids.
  - intros t p Ht P. pose proof (delete_one_In _ _ _ Ht) as Hts.
    destruct (Hpar t p Hts P) as [t' [H1 [H2 H3]]].
    destruct (delete_one_keeps (owned_by uid oid) s t' H1) as [K|K].
    + now exists t'.
    + exfalso. apply owned_by_true in K as [K1 K2].
      assert (Hc : In (_id t) (child_ids s uid oid)).
      { apply child_ids_spec. exists t. repeat split; congruence. }
      rewrite Hch in Hc. destruct Hc.
  - intros uid'. apply sub_acyclic with s; [|auto].
    intros t Ht. eapply delete_one_In; eauto.
Qed.

Lemma complete_well_formed (s : store) (flt : list cond) (when : string) :
  well_formed s ->
  well_formed
    (Mongo.update_many flt
       [SetCompleted true; SetCompletedAt (Some when); SetUpdatedAt when] s).
Proof.
  intros [Hu [Hpar Hacyc]].
  set (ops := [SetCompleted true; SetCompletedAt (Some when); SetUpdatedAt when]).
  assert (Hback : forall t', In t' (Mongo.update_many flt ops s) ->
            exists t, In t s /\ key t' = key t /\ parent_id t' = parent_id t).
  { intros t' H. apply update_many_In in H as [t [H [E|[_ E]]]]; exists t; subst t'; auto. }
  split; [|split].
  - unfold unique_ids. now rewrite ids_of_keys, update_many_keys, <- ids_of_keys.
  - intros t' p Ht' P. destruct (Hback t' Ht') as [t [H [K1 K2]]].
    destruct (Hpar t p H) as [t2 [H1 [H2 H3]]]; [congruence|].
    assert (Ho : owns s (user_id t') p).
    { exists t2. unfold key in K1. inversion K1. repeat split; congruence. }
    apply owns_key in Ho. rewrite <- (update_many_keys flt ops) in Ho.
    now apply owns_key in Ho.
  - intros uid x H. apply (Hacyc uid x). revert H. apply clos_trans_sub.
    intros a b [t' [Ht' [A [B P]]]]. destruct (Hback t' Ht') as [t [H [K1 K2]]].
    unfold key in K1. inversion K1. exists t. repeat split; congruence.
Qed.

Lemma well_formed_empty : well_formed [].
Proof.
  split; [constructor | split].
  - intros t p [].
  - intros uid x H. apply clos_trans_tn1 in H.
    destruct H as [y [t [[] _]] | y z [t [[] _]] _].
Qed.

Lemma step_well_formed (s s' : store) (r : request) :
  well_formed s -> step s r s' -> well_formed s'.
Proof.
  intros Hwf Hstep. destruct Hstep as
    [uid b nid now s' Hfresh H | fuel uid tid u n1 n2 s' H
    | fuel uid tid c s' H | fuel uid tid w s' H].
  - apply post_leaves in H as [->|[doc [-> [E1 [E2 [Hp _]]]]]]; [assumption|].
    apply create_well_formed; [now rewrite E1 | now rewrite E2 | assumption].
  - apply patch_leaves in H as [->|[oid [pops [_ [Hok ->]]]]]; [assumption|].
    eapply patch_well_formed; eauto.
  - apply delete_leaves in H as [->|[[oid [l [_ [Hl ->]]]]|[oid [_ [Hch ->]]]]];
      [assumption | |].
    + eapply delete_many_well_formed; eauto.
    + now apply delete_one_well_formed.
  - apply complete_leaves in H as [->|[oid [l [_ [_ ->]]]]]; [assumption|].
    now apply complete_well_formed.
Qed.

Lemma reachable_well_formed (allowed : request -> Prop) (s : store) :
  reachable allowed s -> well_formed s.
Proof.
  induction 1 as [|s r s' _ IH _ Hstep]; [apply well_formed_empty|].
  eapply step_well_formed; eauto.
Qed.

(* ================================================================== *)
(** ** Cycle prevention *)
(* ================================================================== *)

Lemma owns_find_one (s : store) (uid oid : ObjectId) :
  owns s uid oid -> exists t, Mongo.find_one (owned_by uid oid) s = Some t.
Proof.
  intros [t [H [A B]]]. apply find_one_exists with t; [assumption|].
  now apply owned_by_true.
Qed.

Lemma descends_owned (s : store) (uid x root : ObjectId) :
  descends s uid x root -> x = root \/ owns s uid x.
Proof.
  intros D. apply clos_rt_rt1n in D. destruct D as [|y z E _]; [now left|].
  right. eapply parent_edge_id; eauto.
Qed.

Lemma fuel_le (s : store) (uid : ObjectId) (fuel0 fuel : nat)
    (collected frontier l : list ObjectId) :
  collect_loop fuel0 s uid collected frontier = Some l -> fuel0 <= fuel ->
  collect_loop fuel s uid collected frontier = Some l.
Proof.
  intros H L. replace fuel with (fuel0 + (fuel - fuel0)) by lia.
  now apply collect_loop_fuel.
Qed.

(** A patch whose new parent is the task or one of its collected
    descendants is rejected and writes nothing. *)
Lemma patch_rejects_circular (fuel : nat) (uid : ObjectId) (task_id : string)
    (u : Updates) (now1 now2 : string) (s : store) (oid p : ObjectId)
    (new_parent : option string) (l : list ObjectId) :
  task_oid task_id = Return oid -> owns s uid oid ->
  u_parent_id u = Some new_parent -> _oid new_parent = Return (Some p) ->
  collect_loop fuel s uid [oid] [oid] = Some l ->
  In p l ->
  exists msg,
    TaskResource_patch fuel uid task_id u now1 now2 s = Some (Raise msg, s)
    /\ Err.is_CircularParent msg.
Proof.
  intros Hid Hown Hu Hp Hl Hin.
  destruct (owns_find_one _ _ _ Hown) as [doc Hdoc].
  assert (Hpown : owns s uid p).
  { apply (collect_loop_spec s uid oid fuel l Hl) in Hin.
    apply descends_owned in Hin as [->|H]; assumption. }
  destruct (owns_find_one _ _ _ Hpown) as [par Hpar].
  unfold TaskResource_patch, bind, lift, query.
  rewrite Hid, Hdoc, Hu, Hp, Hpar. unfold ret, _prevent_circular_parent.
  destruct (N.eqb_spec oid p) as [E|NE].
  - exists Err.ParentIsSelf. split; [reflexivity | now left].
  - unfold bind, _collect_descendants, fuelled. rewrite Hl.
    apply mem_oid_In in Hin. rewrite Hin.
    exists Err.ParentIsDescendant. split; [reflexivity | now right].
Qed.

(** C1. Starting from the empty collection, after any sequence of create
    and update requests no task of any owner is its own ancestor. On such
    a collection the descendants of a task are collected (with enough
    fuel), and an update of an owned task whose new parent is the task
    itself or one of the collected descendants is rejected with
    CircularParent and leaves the collection as it was. *)
Theorem C1_parent_relation_stays_acyclic :
  (forall s uid, reachable create_or_update s -> acyclic s uid) /\
  (forall s uid task_id oid u new_parent p now1 now2,
     reachable create_or_update s ->
     task_oid task_id = Return oid -> owns s uid oid ->
     u_parent_id u = Some new_parent -> _oid new_parent = Return (Some p) ->
     exists fuel0 l,
       collect_loop fuel0 s uid [oid] [oid] = Some l /\
       (p = oid \/ In p l ->
        forall fuel, fuel0 <= fuel ->
          exists msg,
            TaskResource_patch fuel uid task_id u now1 now2 s = Some (Raise msg, s)
            /\ Err.is_CircularParent msg)).
Proof.
  split.
  - intros s uid H. apply reachable_well_formed in H. apply H.
  - intros s uid task_id oid u new_parent p now1 now2 Hr Hid Hown Hu Hp.
    apply reachable_well_formed in Hr. destruct Hr as [_ [_ Hacyc]].
    destruct (collect_loop_terminates s uid (Hacyc uid) oid) as [fuel0 [l Hl]].
    exists fuel0, l. split; [assumption|].
    intros Hin fuel Hle.
    apply patch_rejects_circular with oid p new_parent l; auto.
    + now apply fuel_le with fuel0.
    + destruct Hin as [->|Hin]; [|assumption].
      apply (collect_loop_spec s uid oid fuel0 l Hl). apply rt_refl.
Qed.

Lemma demo_tree_reachable : reachable create_or_update Demo.tree.
Proof.
  apply reach_step with
    (s := [Demo.task 1%N Demo.alice "A" None "2024-01-01T00:00:00Z"])
    (r := Create Demo.alice (Demo.body "B" (Some Demo.id1)) 2%N "2024-01-02T00:00:00Z").
  - apply reach_step with (s := [])
      (r := Create Demo.alice (Demo.body "A" None) 1%N "2024-01-01T00:00:00Z").
    + apply reach_empty.
    + exact I.
    + apply step_create; [intros []|]. eexists. cbv. reflexivity.
  - exact I.
  - apply step_create.
    + simpl. intros [E|[]]. discriminate.
    + eexists. cbv. reflexivity.
Qed.

Lemma C1_parent_relation_stays_acyclic_witness :
  acyclic Demo.tree Demo.alice /\
  exists fuel0 l,
    collect_loop fuel0 Demo.tree Demo.alice [1%N] [1%N] = Some l /\
    (2%N = 1%N \/ In 2%N l ->
     forall fuel, fuel0 <= fuel ->
       exists msg,
         TaskResource_patch fuel Demo.alice Demo.id1
           (Demo.set_parent (Some Demo.id2)) "t" "t" Demo.tree
         = Some (Raise msg, Demo.tree)
         /\ Err.is_CircularParent msg).
Proof.
  split.
  - apply (proj1 C1_parent_relation_stays_acyclic). exact demo_tree_reachable.
  - apply (proj2 C1_parent_relation_stays_acyclic) with (new_parent := Some Demo.id2).
    + exact demo_tree_reachable.
    + reflexivity.
    + exists (Demo.task 1%N Demo.alice "A" None "2024-01-01T00:00:00Z").
      simpl. auto.
    + reflexivity.
    + reflexivity.
Defined.

(* ================================================================== *)
(** ** Termination of the descendant collection *)
(* ================================================================== *)

Lemma cyclic_loops (fuel : nat) :
  forall collected x, x = 1%N \/ x = 2%N ->
    collect_loop fuel Demo.cyclic Demo.alice collected [x] = None.
Proof.
  induction fuel as [|fuel IH]; intros C x Hx; [reflexivity|].
  change [x] with ([] ++ [x]). rewrite collect_loop_step.
  destruct Hx as [-> | ->].
  - change (child_ids Demo.cyclic Demo.alice 1%N) with [2%N]. simpl. apply IH. now right.
  - change (child_ids Demo.cyclic Demo.alice 2%N) with [1%N]. simpl. apply IH. now left.
Qed.

(** C3, as stated, fails: the traversal keeps no visited set. On a
    collection where A and B are each the parent of the other, collecting
    the descendants of A returns with no amount of fuel. *)
Lemma C3_cyclic_collection_never_returns :
  ancestor Demo.cyclic Demo.alice 1%N 1%N /\
  ~ exists fuel r, _collect_descendants fuel Demo.alice 1%N Demo.cyclic = Some r.
Proof.
  split.
  - apply t_trans with 2%N; apply t_step.
    + exists (Demo.task 1%N Demo.alice "A" (Some 2%N) "2024-01-01T00:00:00Z").
      simpl; auto.
    + exists (Demo.task 2%N Demo.alice "B" (Some 1%N) "2024-01-02T00:00:00Z").
      simpl; auto.
  - intros [fuel [r H]]. unfold _collect_descendants, fuelled in H.
    rewrite cyclic_loops in H; [discriminate | now left].
Qed.

(** C3, amended. [_collect_descendants] returns exactly when no task
    that descends from the root, the root included, is its own ancestor.
    In that case, given enough fuel, it leaves the collection as it was
    and returns the root and exactly the ids that descend from it, even
    when the owner's parent relation has a cycle elsewhere. Otherwise it
    returns with no amount of fuel. *)
Theorem C3_collect_descendants_returns_without_cycle
    (s : store) (uid root : ObjectId) :
  ((forall x, descends s uid x root -> ~ ancestor s uid x x) ->
   exists fuel0 l,
     (forall fuel, fuel0 <= fuel ->
        _collect_descendants fuel uid root s = Some (Return l, s)) /\
     (forall y, In y l <-> descends s uid y root)) /\
  (~ (forall x, descends s uid x root -> ~ ancestor s uid x x) ->
   forall fuel, _collect_descendants fuel uid root s = None).
Proof.
  split.
  - intros Hfree.
    destruct (collect_loop_terminates_below s uid root Hfree) as [fuel0 [l Hl]].
    exists fuel0, l. split.
    + intros fuel Hle. unfold _collect_descendants, fuelled.
      now rewrite (fuel_le _ _ _ _ _ _ _ Hl Hle).
    + now apply collect_loop_spec with fuel0.
  - intros Hloop fuel. unfold _collect_descendants, fuelled.
    destruct (collect_loop fuel s uid [root] [root]) as [l|] eqn:E; [|reflexivity].
    exfalso. apply Hloop. intros x Hx Hc.
    rewrite (collect_loop_diverges s uid root x Hx Hc fuel) in E. discriminate.
Qed.

(** A collection is free of cycles when a rank goes down along every
    parent reference. *)
Lemma ranked_acyclic (s : store) (uid : ObjectId) (rank : ObjectId -> N) :
  (forall t p, In t s -> parent_id t = Some p -> (rank p < rank (_id t))%N) ->
  acyclic s uid.
Proof.
  intros Hrk.
  assert (Hlt : forall x y, ancestor s uid x y -> (rank y < rank x)%N).
  { intros x y H. induction H as [x y [t [Ht [A [_ P]]]] | x y z _ IH1 _ IH2].
    - subst x. now apply Hrk.
    - lia. }
  intros x H. apply Hlt in H. lia.
Qed.

Lemma demo_tree_acyclic (uid : ObjectId) : acyclic Demo.tree uid.
Proof.
  apply ranked_acyclic with (rank := fun x => x).
  intros t p [<-|[<-|[]]]; simpl; intros E; inversion E. reflexivity.
Qed.

(** In [Demo.cyclic_above] nothing is a child of C. *)
Lemma cyclic_above_leaf (x : ObjectId) :
  ~ parent_edge Demo.cyclic_above Demo.alice x 3%N.
Proof.
  intros [t [Ht [_ [_ P]]]].
  destruct Ht as [<-|[<-|[<-|[]]]]; discriminate P.
Qed.

Lemma cyclic_above_free : loop_free_below Demo.cyclic_above Demo.alice 3%N.
Proof.
  intros x Hx Hc.
  apply clos_rt_rtn1 in Hx. inversion Hx as [|y z E _]; subst.
  - apply clos_trans_tn1 in Hc.
    inversion Hc as [y E | y z E _]; subst; exact (cyclic_above_leaf _ E).
  - exact (cyclic_above_leaf _ E).
Qed.

Lemma cyclic_above_loop :
  ~ (forall x, descends Demo.cyclic_above Demo.alice x 1%N ->
               ~ ancestor Demo.cyclic_above Demo.alice x x).
Proof.
  intros H. apply (H 1%N); [apply rt_refl|].
  apply t_trans with 2%N; apply t_step.
  - exists (Demo.task 1%N Demo.alice "A" (Some 2%N) "2024-01-01T00:00:00Z").
    simpl; auto.
  - exists (Demo.task 2%N Demo.alice "B" (Some 1%N) "2024-01-02T00:00:00Z").
    simpl; auto.
Qed.

Lemma C3_collect_descendants_returns_without_cycle_witness :
  (exists fuel0 l,
     (forall fuel, fuel0 <= fuel ->
        _collect_descendants fuel Demo.alice 3%N Demo.cyclic_above
        = Some (Return l, Demo.cyclic_above)) /\
     (forall y, In y l <-> descends Demo.cyclic_above Demo.alice y 3%N)) /\
  (forall fuel,
     _collect_descendants fuel Demo.alice 1%N Demo.cyclic_above = None).
Proof.
  split.
  - apply (proj1 (C3_collect_descendants_returns_without_cycle
                    Demo.cyclic_above Demo.alice 3%N)).
    exact cyclic_above_free.
  - apply (proj2 (C3_collect_descendants_returns_without_cycle
                    Demo.cyclic_above Demo.alice 1%N)).
    exact cyclic_above_loop.
Defined.

(* ================================================================== *)
(** ** Completion fields *)
(* ================================================================== *)

Lemma step_completion_consistent (s s' : store) (r : request) :
  (forall t, In t s -> completion_consistent t) ->
  step s r s' ->
  forall t, In t s' -> completion_consistent t.
Proof.
  intros Hs Hstep. destruct Hstep as
    [uid b nid now s' Hfresh H | fuel uid tid u n1 n2 s' H
    | fuel uid tid c s' H | fuel uid tid w s' H].
  - apply post_leaves in H as [->|[doc [-> [_ [_ [_ Hc]]]]]]; [assumption|].
    intros t Ht. apply in_app_or in Ht as [Ht|[<-|[]]]; auto.
  - apply patch_leaves in H as [->|[oid [pops [_ [Hok ->]]]]]; [assumption|].
    intros t' Ht'. apply update_one_In in Ht' as [H|[t [H [_ ->]]]]; [auto|].
    eapply patched_consistent; eauto.
  - apply delete_leaves in H as [->|[[oid [l [_ [_ ->]]]]|[oid [_ [_ ->]]]]];
      [assumption | |].
    + intros t Ht. apply filter_In in Ht as [Ht _]. auto.
    + intros t Ht. apply delete_one_In in Ht. auto.
  - apply complete_leaves in H as [->|[oid [l [_ [_ ->]]]]]; [assumption|].
    intros t' Ht'. apply update_many_In in Ht' as [t [H [->|[_ ->]]]]; [auto|].
    unfold completion_consistent; simpl. split; discriminate.
Qed.

(** C2. In every collection reached from the empty one by create, update,
    delete and complete requests (cascading or not), every task has
    [completed] false exactly when [completed_at] is null; and a request
    served on a collection of such tasks leaves a collection of such
    tasks. Each write of [completed] writes [completed_at] with it: the
    fields a patch sets when its payload has [completed], and the fields
    a completion sets, make a task consistent whatever it was before. *)
Theorem C2_completed_iff_completed_at :
  (forall s t, reachable any_request s -> In t s -> completion_consistent t) /\
  (forall s r s',
     (forall t, In t s -> completion_consistent t) -> step s r s' ->
     forall t, In t s' -> completion_consistent t) /\
  (forall u now b t,
     u_completed u = Some b ->
     completion_consistent (Mongo.apply_set (field_set_ops u now) t)) /\
  (forall when t, completion_consistent (mark_completed when t)).
Proof.
  split; [|split; [intros s r s'; apply step_completion_consistent|split]].
  - intros s t H. revert t.
    induction H as [|s r s' _ IH _ Hstep]; [intros t []|].
    eapply step_completion_consistent; eauto.
  - intros u now b t Hb. destruct u as [a1 a2 a3 a4 a5 a6 a7]. simpl in Hb. subst a7.
    unfold field_set_ops, completion_consistent; simpl.
    destruct b, a1, a2, a3, a4, a5; simpl; split; intros; (discriminate || reflexivity).
  - intros when t. split; discriminate.
Qed.

Lemma reachable_weaken (P Q : request -> Prop) (s : store) :
  (forall r, P r -> Q r) -> reachable P s -> reachable Q s.
Proof.
  intros HPQ H. induction H as [|s r s' _ IH Hr Hstep]; [apply reach_empty|].
  apply reach_step with s r; auto.
Qed.

Lemma demo_tree_completed_step :
  step Demo.tree (Complete Demo.alice Demo.id1 "2024-02-01T00:00:00Z")
    (map (fun t => Mongo.apply_set
            [SetCompleted true; SetCompletedAt (Some "2024-02-01T00:00:00Z");
             SetUpdatedAt "2024-02-01T00:00:00Z"] t) Demo.tree).
Proof. apply step_complete with (fuel := 5). eexists. cbv. reflexivity. Qed.

Lemma C2_completed_iff_completed_at_witness :
  completion_consistent (Demo.task 2%N Demo.alice "B" (Some 1%N) "2024-01-02T00:00:00Z")
  /\ (forall t,
        In t (map (fun t => Mongo.apply_set
                [SetCompleted true; SetCompletedAt (Some "2024-02-01T00:00:00Z");
                 SetUpdatedAt "2024-02-01T00:00:00Z"] t) Demo.tree) ->
        completion_consistent t).
Proof.
  split.
  - apply (proj1 C2_completed_iff_completed_at) with (s := Demo.tree).
    + apply reachable_weaken with create_or_update; [intros; exact I|].
      exact demo_tree_reachable.
    + simpl. auto.
  - apply (proj1 (proj2 C2_completed_iff_completed_at)) with (s := Demo.tree)
      (r := Complete Demo.alice Demo.id1 "2024-02-01T00:00:00Z").
    + intros t [<-|[<-|[]]]; split; reflexivity.
    + exact demo_tree_completed_step.
Defined.

(* ================================================================== *)
(** ** Cascading delete *)
(* ================================================================== *)

Lemma root_collected (s : store) (uid root : ObjectId) (fuel : nat) (l : list ObjectId) :
  collect_loop fuel s uid [root] [root] = Some l -> In root l.
Proof.
  intros H. apply (collect_loop_spec s uid root fuel l H). apply rt_refl.
Qed.

Lemma cascade_removes_root (s : store) (uid oid : ObjectId) (l : list ObjectId) :
  In oid l ->
  ~ owns (Mongo.delete_many [FIn "_id" (map BOid l); FEq "user_id" (BOid uid)] s) uid oid.
Proof.
  intros Hin [t [Ht [A B]]]. unfold Mongo.delete_many in Ht.
  apply filter_In in Ht as [_ Hm]. rewrite matches_in_ids in Hm.
  apply mem_oid_In in Hin. rewrite A, Hin, B, N.eqb_refl in Hm. discriminate.
Qed.

(** C4, as stated, fails: the second cascading delete of a root that the
    first one removed is answered with the error "Task not found.", not
    with a success. *)
Lemma C4_second_cascade_delete_raises :
  TaskResource_delete 5 Demo.alice Demo.id1 (Some "true") Demo.tree
  = Some (Return tt, []) /\
  TaskResource_delete 5 Demo.alice Demo.id1 (Some "true") []
  = Some (Raise Err.TaskNotFound, []) /\
  TaskResource_delete 5 Demo.alice Demo.id1 (Some "true") []
  <> Some (Return tt, []).
Proof.
  split; [reflexivity|]. split; [reflexivity|]. discriminate.
Qed.

(** C4, amended. After a cascading delete of a task has succeeded, the
    same cascading delete is rejected with TaskNotFound and leaves the
    collection as the first one left it. *)
Theorem C4_second_cascade_delete_not_found
    (fuel fuel' : nat) (uid : ObjectId) (task_id : string)
    (cascade_arg : option string) (s s' : store) :
  flag_arg cascade_arg = true ->
  TaskResource_delete fuel uid task_id cascade_arg s = Some (Return tt, s') ->
  TaskResource_delete fuel' uid task_id cascade_arg s'
  = Some (Raise Err.TaskNotFound, s').
Proof.
  intros Hc H. unfold TaskResource_delete in *.
  unfold bind, lift, query, modify, ret, raise in *. rewrite Hc in *.
  destruct (task_oid task_id) as [oid| |]; try discriminate.
  destruct (Mongo.find_one (owned_by uid oid) s) as [doc|]; [|discriminate].
  unfold bind, _collect_descendants, fuelled in H.
  destruct (collect_loop fuel s uid [oid] [oid]) as [l|] eqn:El; [|discriminate].
  inversion H; subst s'. clear H.
  apply root_collected in El.
  apply (cascade_removes_root s uid oid l) in El.
  apply find_one_owned_None in El. now rewrite El.
Qed.

Lemma C4_second_cascade_delete_not_found_witness :
  TaskResource_delete 7 Demo.alice Demo.id1 (Some "TRUE")
    [Demo.task 3%N Demo.bob "C" None "2024-01-03T00:00:00Z"]
  = Some (Raise Err.TaskNotFound,
          [Demo.task 3%N Demo.bob "C" None "2024-01-03T00:00:00Z"]).
Proof.
  apply (C4_second_cascade_delete_not_found 5 7 Demo.alice Demo.id1 (Some "TRUE")
           Demo.shared).
  - reflexivity.
  - reflexivity.
Defined.

(* ================================================================== *)
(** ** Pagination *)
(* ================================================================== *)

Lemma ceil_div_bounds (n d : Z) :
  (0 < d)%Z ->
  (((n + d - 1) / d - 1) * d < n <= (n + d - 1) / d * d)%Z.
Proof.
  intros Hd.
  pose proof (Z.div_mod (n + d - 1) d ltac:(lia)) as E.
  pose proof (Z.mod_pos_bound (n + d - 1) d Hd) as B.
  nia.
Qed.

Lemma count_zero (flt : list cond) (s : store) :
  Mongo.count_documents flt s = 0%Z -> Mongo.find flt s = [].
Proof.
  unfold Mongo.count_documents. destruct (Mongo.find flt s); [reflexivity|].
  simpl. lia.
Qed.

(** C5, as stated, fails: listing an empty collection answers
    [total_pages = 0], not 1 (the floor of 1 is put on [last_page] only). *)
Lemma C5_empty_listing_has_zero_pages :
  exists r,
    TasksCollection_get Demo.alice Demo.list_all [] = Some (Return r, [])
    /\ total (meta r) = 0%Z /\ items r = []
    /\ total_pages (meta r) = 0%Z /\ total_pages (meta r) <> 1%Z
    /\ last_page (meta r) = 1%Z.
Proof.
  eexists. split; [cbv; reflexivity|]. simpl.
  repeat split; try reflexivity. discriminate.
Qed.

(** C5, amended. For a listing with a positive page size, [total] counts
    the tasks that match the filter and [total_pages] is
    ceil(total / page_size) with no minimum: it is 0 when nothing
    matches. The floor of 1 is on [last_page], which is
    max(1, total_pages), and the requested page is clamped into
    [1, last_page]: the page served is
    max(1, min(requested page, last_page)). When nothing matches,
    total = 0, total_pages = 0, last_page = 1, page = 1 and
    items = []. *)
Theorem C5_total_pages_is_ceiling_without_floor `{Datetime}
    (uid : ObjectId) (a : TaskQuery) (s s' : store) (r : TaskList) :
  (0 < q_page_size a)%Z ->
  TasksCollection_get uid a s = Some (Return r, s') ->
  exists flt,
    build_filter uid a = Return flt /\ s' = s /\
    total (meta r) = Mongo.count_documents flt s /\
    ((total_pages (meta r) - 1) * q_page_size a < total (meta r)
       <= total_pages (meta r) * q_page_size a)%Z /\
    last_page (meta r) = Z.max 1 (total_pages (meta r)) /\
    (1 <= page (meta r) <= last_page (meta r))%Z /\
    page (meta r) = Z.max 1 (Z.min (q_page a) (last_page (meta r))) /\
    (total (meta r) = 0%Z ->
       total_pages (meta r) = 0%Z /\ last_page (meta r) = 1%Z /\
       page (meta r) = 1%Z /\ items r = []).
Proof.
  intros Hps Hrun. unfold TasksCollection_get in Hrun.
  unfold bind, lift, query, ret in Hrun.
  destruct (build_filter uid a) as [flt| |]; try discriminate.
  exists flt. split; [reflexivity|].
  apply Z.ltb_lt in Hps. rewrite Hps in Hrun. apply Z.ltb_lt in Hps.
  inversion Hrun; subst s' r; clear Hrun. simpl.
  set (n := Mongo.count_documents flt s).
  assert (Hn : (0 <= n)%Z) by (unfold n, Mongo.count_documents; lia).
  pose proof (ceil_div_bounds n (q_page_size a) Hps) as Hb.
  set (tp := ((n + q_page_size a - 1) / q_page_size a)%Z) in *.
  assert (Htp : (0 <= tp)%Z) by nia.
  assert (Hor : or_1 tp = Z.max 1 tp).
  { unfold or_1. destruct (Z.eqb_spec tp 0); lia. }
  rewrite Hor.
  split; [reflexivity|]. split; [reflexivity|]. split; [exact Hb|].
  split; [reflexivity|]. split; [lia|]. split; [reflexivity|].
  intros Hz.
  assert (Htp0 : tp = 0%Z) by nia.
  rewrite Htp0. repeat split; try reflexivity; try lia.
  fold n in Hz. unfold n in Hz. apply count_zero in Hz. rewrite Hz.
  simpl. unfold Mongo.skip, Mongo.limit. rewrite skipn_nil.
  destruct (q_page_size a =? 0)%Z; [reflexivity|]. now rewrite firstn_nil.
Qed.

Lemma C5_total_pages_is_ceiling_without_floor_witness :
  exists r flt,
    TasksCollection_get Demo.alice Demo.list_all Demo.shared = Some (Return r, Demo.shared)
    /\ build_filter Demo.alice Demo.list_all = Return flt
    /\ total (meta r) = Mongo.count_documents flt Demo.shared
    /\ ((total_pages (meta r) - 1) * 20 < total (meta r)
          <= total_pages (meta r) * 20)%Z
    /\ last_page (meta r) = Z.max 1 (total_pages (meta r))
    /\ page (meta r) = Z.max 1 (Z.min 1 (last_page (meta r))).
Proof.
  eexists.
  destruct (C5_total_pages_is_ceiling_without_floor Demo.alice Demo.list_all
              Demo.shared Demo.shared _ ltac:(reflexivity) eq_refl)
    as (flt & E1 & _ & E2 & E3 & E4 & _ & E6 & _).
  exists flt. repeat split; try eassumption; try reflexivity; apply E3.
Defined.

(* ================================================================== *)
(** ** Cascading completion and deletion on a well-formed collection *)
(* ================================================================== *)

Lemma unique_ids_same (s : store) (t t0 : Task) :
  unique_ids s -> In t s -> In t0 s -> _id t = _id t0 -> t = t0.
Proof.
  unfold unique_ids. induction s as [|a r IH]; simpl; [tauto|].
  intros Hnd Ht Ht0 E. inversion Hnd as [|x l Hnot Hnd']; subst.
  destruct Ht as [->|Ht], Ht0 as [->|Ht0]; auto.
  - destruct Hnot. rewrite E. now apply in_map.
  - destruct Hnot. rewrite <- E. now apply in_map.
Qed.

(** In a collection with unique ids, the stored tasks whose id was
    collected from an owned root belong to the owner. *)
Lemma collected_owned (s : store) (uid oid : ObjectId) (fuel : nat) (l : list ObjectId)
    (t : Task) :
  unique_ids s -> owns s uid oid ->
  collect_loop fuel s uid [oid] [oid] = Some l ->
  In t s -> In (_id t) l -> user_id t = uid.
Proof.
  intros Hu Hown Hl Ht Hin.
  apply (collect_loop_spec s uid oid fuel l Hl) in Hin.
  assert (Ho : owns s uid (_id t)).
  { apply descends_owned in Hin as [E|H]; [now rewrite E | assumption]. }
  destruct Ho as [t0 [Ht0 [A B]]].
  assert (t = t0) by (apply (unique_ids_same s); auto).
  now subst t0.
Qed.

Lemma cascade_filter (s : store) (uid oid : ObjectId) (fuel : nat) (l : list ObjectId)
    (t : Task) :
  unique_ids s -> owns s uid oid ->
  collect_loop fuel s uid [oid] [oid] = Some l ->
  In t s ->
  Mongo.matches [FIn "_id" (map BOid l); FEq "user_id" (BOid uid)] t = mem_oid (_id t) l.
Proof.
  intros Hu Hown Hl Ht. rewrite matches_in_ids.
  destruct (mem_oid (_id t) l) eqn:Em; [|reflexivity].
  apply mem_oid_In in Em.
  rewrite (collected_owned s uid oid fuel l t Hu Hown Hl Ht Em).
  now rewrite N.eqb_refl.
Qed.

Lemma apply_completion (when : string) (t : Task) :
  Mongo.apply_set [SetCompleted true; SetCompletedAt (Some when); SetUpdatedAt when] t
  = mark_completed when t.
Proof. reflexivity. Qed.

(** C6. On a well-formed collection, completing an owned task T returns
    (with enough fuel); with [l] the ids [_collect_descendants] returns
    for T, which are T and exactly the ids that descend from T, the
    collection it leaves is the old one where exactly the tasks whose id
    is in [l] have completed = true, completed_at = when and
    updated_at = when, for the one timestamp [when], and every other
    task is as it was. The answer is T in its new state. *)
Theorem C6_complete_marks_exactly_the_descendants
    (s : store) (uid : ObjectId) (task_id : string) (oid : ObjectId) (when : string) :
  well_formed s -> task_oid task_id = Return oid -> owns s uid oid ->
  exists fuel0 l,
    (forall fuel, fuel0 <= fuel ->
       _collect_descendants fuel uid oid s = Some (Return l, s)) /\
    (forall y, In y l <-> descends s uid y oid) /\
    (forall fuel, fuel0 <= fuel ->
       exists r,
         TaskComplete_post fuel uid task_id when s
         = Some (Return r,
                 map (fun t => if mem_oid (_id t) l then mark_completed when t else t) s)
         /\ ser_id r = Bson.str_of_ObjectId oid
         /\ ser_completed r = true
         /\ ser_completed_at r = Some when
         /\ ser_updated_at r = when).
Proof.
  intros [Hu [_ Hacyc]] Hid Hown.
  destruct (collect_loop_terminates s uid (Hacyc uid) oid) as [fuel0 [l Hl]].
  exists fuel0, l. split.
  { intros fuel Hle. unfold _collect_descendants, fuelled.
    now rewrite (fuel_le _ _ _ _ _ _ _ Hl Hle). }
  split; [now apply collect_loop_spec with fuel0|].
  intros fuel Hle.
  pose proof (fuel_le _ _ _ _ _ _ _ Hl Hle) as Hl'.
  destruct (owns_find_one _ _ _ Hown) as [doc Hdoc].
  set (s' := map (fun t => if mem_oid (_id t) l then mark_completed when t else t) s).
  assert (Es : Mongo.update_many [FIn "_id" (map BOid l); FEq "user_id" (BOid uid)]
                 [SetCompleted true; SetCompletedAt (Some when); SetUpdatedAt when] s = s').
  { unfold Mongo.update_many, s'. apply map_ext_in. intros t Ht.
    rewrite (cascade_filter s uid oid fuel0 l t Hu Hown Hl Ht).
    now rewrite apply_completion. }
  assert (Hroot : In oid l) by (eapply root_collected; eauto).
  destruct Hown as [t0 [Ht0 [A0 B0]]].
  assert (Hin' : In (mark_completed when t0) s').
  { unfold s'. apply in_map_iff. exists t0. split; [|assumption].
    apply mem_oid_In in Hroot. now rewrite A0, Hroot. }
  destruct (find_one_exists [FEq "_id" (BOid oid)] s' _ Hin') as [t' Ht'].
  { rewrite matches_by_id. simpl. rewrite A0. apply N.eqb_refl. }
  exists (_serialize_task t').
  unfold TaskComplete_post, bind, lift, query, modify, ret.
  rewrite Hid, Hdoc. unfold bind, _collect_descendants, fuelled. rewrite Hl'.
  rewrite Es, Ht'. split; [reflexivity|].
  apply find_one_Some in Ht' as [Hin Hm].
  rewrite matches_by_id in Hm. apply N.eqb_eq in Hm.
  unfold s' in Hin. apply in_map_iff in Hin as [t [E Ht]].
  assert (Et : _id t = oid).
  { rewrite <- Hm, <- E. destruct (mem_oid (_id t) l); reflexivity. }
  apply mem_oid_In in Hroot. rewrite Et, Hroot in E. subst t'.
  simpl. rewrite Et. auto.
Qed.

Lemma demo_shared_well_formed : well_formed Demo.shared.
Proof.
  apply reachable_well_formed with any_request.
  apply reach_step with (s := Demo.tree)
    (r := Create Demo.bob (Demo.body "C" None) 3%N "2024-01-03T00:00:00Z").
  - apply reachable_weaken with create_or_update; [intros; exact I|].
    exact demo_tree_reachable.
  - exact I.
  - apply step_create.
    + simpl. intros [E|[E|[]]]; discriminate.
    + eexists. cbv. reflexivity.
Qed.

Lemma C6_complete_marks_exactly_the_descendants_witness :
  exists fuel0 l,
    (forall fuel, fuel0 <= fuel ->
       _collect_descendants fuel Demo.alice 1%N Demo.shared
       = Some (Return l, Demo.shared)) /\
    (forall y, In y l <-> descends Demo.shared Demo.alice y 1%N) /\
    (forall fuel, fuel0 <= fuel ->
       exists r,
         TaskComplete_post fuel Demo.alice Demo.id1 "2024-02-01T00:00:00Z" Demo.shared
         = Some (Return r,
                 map (fun t => if mem_oid (_id t) l
                               then mark_completed "2024-02-01T00:00:00Z" t else t)
                   Demo.shared)
         /\ ser_id r = Bson.str_of_ObjectId 1%N
         /\ ser_completed r = true
         /\ ser_completed_at r = Some "2024-02-01T00:00:00Z"
         /\ ser_updated_at r = "2024-02-01T00:00:00Z").
Proof.
  apply C6_complete_marks_exactly_the_descendants.
  - exact demo_shared_well_formed.
  - reflexivity.
  - exists (Demo.task 1%N Demo.alice "A" None "2024-01-01T00:00:00Z").
    simpl. auto.
Defined.

(** C7. On a well-formed collection, for an owned task T with at least
    one child: a delete without cascade is rejected with HasChildren and
    leaves the collection as it was; a delete with cascade returns (with
    enough fuel) and leaves the collection without the tasks whose id
    [_collect_descendants] returns for T, which are T and exactly the ids
    that descend from T, every other task being kept. *)
Theorem C7_delete_of_a_task_with_children
    (s : store) (uid : ObjectId) (task_id : string) (oid : ObjectId) :
  well_formed s -> task_oid task_id = Return oid -> owns s uid oid ->
  (exists c, parent_edge s uid c oid) ->
  (forall fuel cascade_arg, flag_arg cascade_arg = false ->
     TaskResource_delete fuel uid task_id cascade_arg s
     = Some (Raise Err.HasChildren, s)) /\
  exists fuel0 l,
    (forall fuel, fuel0 <= fuel ->
       _collect_descendants fuel uid oid s = Some (Return l, s)) /\
    In oid l /\
    (forall y, In y l <-> descends s uid y oid) /\
    (forall fuel cascade_arg, fuel0 <= fuel -> flag_arg cascade_arg = true ->
       TaskResource_delete fuel uid task_id cascade_arg s
       = Some (Return tt, filter (fun t => negb (mem_oid (_id t) l)) s)).
Proof.
  intros [Hu [_ Hacyc]] Hid Hown Hch.
  destruct (owns_find_one _ _ _ Hown) as [doc Hdoc].
  split.
  - intros fuel c Hc.
    unfold TaskResource_delete, bind, lift, query, modify, ret, raise.
    rewrite Hid, Hdoc, Hc. unfold _has_children, bind, query, ret.
    apply has_children_true in Hch. now rewrite Hch.
  - destruct (collect_loop_terminates s uid (Hacyc uid) oid) as [fuel0 [l Hl]].
    exists fuel0, l. split; [|split; [|split]].
    + intros fuel Hle. unfold _collect_descendants, fuelled.
      now rewrite (fuel_le _ _ _ _ _ _ _ Hl Hle).
    + eapply root_collected; eauto.
    + now apply collect_loop_spec with fuel0.
    + intros fuel c Hle Hc.
      unfold TaskResource_delete, bind, lift, query, modify, ret, raise.
      rewrite Hid, Hdoc, Hc. unfold bind, _collect_descendants, fuelled.
      rewrite (fuel_le _ _ _ _ _ _ _ Hl Hle).
      unfold Mongo.delete_many. do 2 f_equal.
      apply filter_ext_in. intros t Ht.
      now rewrite (cascade_filter s uid oid fuel0 l t Hu Hown Hl Ht).
Qed.

Lemma C7_delete_of_a_task_with_children_witness :
  (forall fuel cascade_arg, flag_arg cascade_arg = false ->
     TaskResource_delete fuel Demo.alice Demo.id1 cascade_arg Demo.shared
     = Some (Raise Err.HasChildren, Demo.shared)) /\
  exists fuel0 l,
    (forall fuel, fuel0 <= fuel ->
       _collect_descendants fuel Demo.alice 1%N Demo.shared
       = Some (Return l, Demo.shared)) /\
    In 1%N l /\
    (forall y, In y l <-> descends Demo.shared Demo.alice y 1%N) /\
    (forall fuel cascade_arg, fuel0 <= fuel -> flag_arg cascade_arg = true ->
       TaskResource_delete fuel Demo.alice Demo.id1 cascade_arg Demo.shared
       = Some (Return tt, filter (fun t => negb (mem_oid (_id t) l)) Demo.shared)).
Proof.
  apply C7_delete_of_a_task_with_children.
  - exact demo_shared_well_formed.
  - reflexivity.
  - exists (Demo.task 1%N Demo.alice "A" None "2024-01-01T00:00:00Z").
    simpl. auto.
  - exists 2%N.
    exists (Demo.task 2%N Demo.alice "B" (Some 1%N) "2024-01-02T00:00:00Z").
    simpl. auto.
Defined.

(* ================================================================== *)
(** ** The examples of the specification *)
(* ================================================================== *)

(** With 45 tasks and pages of 20 there are 3 pages, and page 10 is
    answered as page 3, with page 2 before it and none after it. *)
Example pagination_45_by_20 :
  exists r,
    TasksCollection_get Demo.alice (Demo.list_page 10) (Demo.roots 45)
    = Some (Return r, Demo.roots 45)
    /\ total (meta r) = 45%Z /\ total_pages (meta r) = 3%Z
    /\ page (meta r) = 3%Z /\ previous_page (meta r) = Some 2%Z
    /\ next_page (meta r) = None /\ List.length (items r) = 5.
Proof.
  eexists. split; [vm_compute; reflexivity|].
  repeat split; reflexivity.
Qed.

(** A created root task is read back with its title, not completed and
    without a parent. *)
Example create_then_get :
  exists r s',
    TasksCollection_post Demo.alice (Demo.body "A" None) 1%N "2024-01-01T00:00:00Z" []
    = Some (Return r, s')
    /\ TaskResource_get 0 Demo.alice (ser_id r) None s' = Some (Return (Plain r), s')
    /\ ser_title r = "A" /\ ser_completed r = false /\ ser_parent_id r = None.
Proof.
  eexists. eexists. split; [vm_compute; reflexivity|].
  repeat split; reflexivity.
Qed.

(* ================================================================== *)
(** ** Tasks of other owners *)
(* ================================================================== *)

Section NotOwned.

Variables (s : store) (uid oid : ObjectId) (task_id : string).
Hypothesis Hid : task_oid task_id = Return oid.
Hypothesis Hnot : ~ owns s uid oid.

Lemma get_not_owned (fuel : nat) (include_subtasks_arg : option string) :
  TaskResource_get fuel uid task_id include_subtasks_arg s
  = Some (Raise Err.TaskNotFound, s).
Proof.
  apply find_one_owned_None in Hnot.
  unfold TaskResource_get, bind, lift, query, raise. rewrite Hid.
  destruct (flag_arg include_subtasks_arg).
  - unfold _build_subtree, bind, query, raise. now rewrite Hnot.
  - now rewrite Hnot.
Qed.

Lemma patch_not_owned (fuel : nat) (u : Updates) (now1 now2 : string) :
  TaskResource_patch fuel uid task_id u now1 now2 s
  = Some (Raise Err.TaskNotFound, s).
Proof.
  apply find_one_owned_None in Hnot.
  unfold TaskResource_patch, bind, lift, query, raise. now rewrite Hid, Hnot.
Qed.

Lemma delete_not_owned (fuel : nat) (cascade_arg : option string) :
  TaskResource_delete fuel uid task_id cascade_arg s
  = Some (Raise Err.TaskNotFound, s).
Proof.
  apply find_one_owned_None in Hnot.
  unfold TaskResource_delete, bind, lift, query, raise. now rewrite Hid, Hnot.
Qed.

Lemma complete_not_owned (fuel : nat) (when : string) :
  TaskComplete_post fuel uid task_id when s
  = Some (Raise Err.TaskNotFound, s).
Proof.
  apply find_one_owned_None in Hnot.
  unfold TaskComplete_post, bind, lift, query, raise. now rewrite Hid, Hnot.
Qed.

End NotOwned.

Lemma foreign_not_owned (s : store) (uid oid : ObjectId) :
  unique_ids s ->
  (exists t, In t s /\ _id t = oid /\ user_id t <> uid) ->
  ~ owns s uid oid.
Proof.
  intros Hu [t [Ht [A B]]] [t0 [Ht0 [A0 B0]]].
  assert (t = t0) by (apply (unique_ids_same s); auto; congruence).
  subst t0. contradiction.
Qed.

Lemma absent_not_owned (s : store) (uid oid : ObjectId) :
  ~ In oid (map _id s) -> ~ owns s uid oid.
Proof. intros H Ho. apply H. eapply owns_id; eauto. Qed.

(** C8. Take a well-formed task id, a collection [s1] (with unique ids)
    where it is the id of a task of another owner, and a collection [s2]
    where no task has it. Get (with or without subtasks), update, delete
    (cascading or not) and complete answer the caller the same on both:
    the error TaskNotFound, with the collection left as it was. *)
Theorem C8_foreign_task_answers_as_absent
    (s1 s2 : store) (uid : ObjectId) (task_id : string) (oid : ObjectId) :
  task_oid task_id = Return oid ->
  unique_ids s1 ->
  (exists t, In t s1 /\ _id t = oid /\ user_id t <> uid) ->
  ~ In oid (map _id s2) ->
  (forall fuel include_subtasks_arg,
     TaskResource_get fuel uid task_id include_subtasks_arg s1
       = Some (Raise Err.TaskNotFound, s1) /\
     TaskResource_get fuel uid task_id include_subtasks_arg s2
       = Some (Raise Err.TaskNotFound, s2)) /\
  (forall fuel u now1 now2,
     TaskResource_patch fuel uid task_id u now1 now2 s1
       = Some (Raise Err.TaskNotFound, s1) /\
     TaskResource_patch fuel uid task_id u now1 now2 s2
       = Some (Raise Err.TaskNotFound, s2)) /\
  (forall fuel cascade_arg,
     TaskResource_delete fuel uid task_id cascade_arg s1
       = Some (Raise Err.TaskNotFound, s1) /\
     TaskResource_delete fuel uid task_id cascade_arg s2
       = Some (Raise Err.TaskNotFound, s2)) /\
  (forall fuel when,
     TaskComplete_post fuel uid task_id when s1
       = Some (Raise Err.TaskNotFound, s1) /\
     TaskComplete_post fuel uid task_id when s2
       = Some (Raise Err.TaskNotFound, s2)).
Proof.
  intros Hid Hu Hforeign Habsent.
  pose proof (foreign_not_owned s1 uid oid Hu Hforeign) as H1.
  pose proof (absent_not_owned s2 uid oid Habsent) as H2.
  repeat split; intros.
  - now apply get_not_owned with oid.
  - now apply get_not_owned with oid.
  - now apply patch_not_owned with oid.
  - now apply patch_not_owned with oid.
  - now apply delete_not_owned with oid.
  - now apply delete_not_owned with oid.
  - now apply complete_not_owned with oid.
  - now apply complete_not_owned with oid.
Qed.

Lemma C8_foreign_task_answers_as_absent_witness :
  (forall fuel include_subtasks_arg,
     TaskResource_get fuel Demo.alice Demo.id3 include_subtasks_arg Demo.shared
       = Some (Raise Err.TaskNotFound, Demo.shared) /\
     TaskResource_get fuel Demo.alice Demo.id3 include_subtasks_arg Demo.tree
       = Some (Raise Err.TaskNotFound, Demo.tree)) /\
  (forall fuel u now1 now2,
     TaskResource_patch fuel Demo.alice Demo.id3 u now1 now2 Demo.shared
       = Some (Raise Err.TaskNotFound, Demo.shared) /\
     TaskResource_patch fuel Demo.alice Demo.id3 u now1 now2 Demo.tree
       = Some (Raise Err.TaskNotFound, Demo.tree)) /\
  (forall fuel cascade_arg,
     TaskResource_delete fuel Demo.alice Demo.id3 cascade_arg Demo.shared
       = Some (Raise Err.TaskNotFound, Demo.shared) /\
     TaskResource_delete fuel Demo.alice Demo.id3 cascade_arg Demo.tree
       = Some (Raise Err.TaskNotFound, Demo.tree)) /\
  (forall fuel when,
     TaskComplete_post fuel Demo.alice Demo.id3 when Demo.shared
       = Some (Raise Err.TaskNotFound, Demo.shared) /\
     TaskComplete_post fuel Demo.alice Demo.id3 when Demo.tree
       = Some (Raise Err.TaskNotFound, Demo.tree)).
Proof.
  apply (C8_foreign_task_answers_as_absent Demo.shared Demo.tree Demo.alice Demo.id3 3%N).
  - reflexivity.
  - unfold unique_ids. simpl. repeat constructor; simpl; intuition discriminate.
  - exists (Demo.task 3%N Demo.bob "C" None "2024-01-03T00:00:00Z").
    simpl. repeat split; auto. discriminate.
  - simpl. intuition discriminate.
Defined.

(* ================================================================== *)
(** ** Text search *)
(* ================================================================== *)

(** [re.escape] puts a backslash before every character the store's
    patterns give a meaning to, and before no letter or digit. *)
Lemma re_special_not_alnum (c : ascii) :
  Py.is_re_special c = true -> Regex.is_alnum c = false.
Proof.
  destruct c as [[] [] [] [] [] [] [] []]; vm_compute; congruence.
Qed.

Lemma not_re_special_plain (c : ascii) :
  Py.is_re_special c = false ->
  Ascii.eqb c "\" = false /\ Regex.is_metachar c = false.
Proof.
  destruct c as [[] [] [] [] [] [] [] []]; vm_compute; intuition congruence.
Qed.

Lemma metachar_escaped (c : ascii) :
  Regex.is_metachar c = true -> Py.is_re_special c = true.
Proof.
  destruct c as [[] [] [] [] [] [] [] []]; vm_compute; congruence.
Qed.

(** An escaped text is a pattern without operators, and stands for the
    text. *)
Lemma literal_re_escape (x : string) : Regex.literal (Py.re_escape x) = Some x.
Proof.
  induction x as [|c r IH]; [reflexivity|].
  simpl Py.re_escape. destruct (Py.is_re_special c) eqn:E.
  - change (Regex.literal (String "\" (String c (Py.re_escape r))))
      with (if Regex.is_alnum c then None
            else option_map (String c) (Regex.literal (Py.re_escape r))).
    now rewrite (re_special_not_alnum c E), IH.
  - destruct (not_re_special_plain c E) as [E1 E2].
    simpl. now rewrite E1, E2, IH.
Qed.

Lemma prefix_at_spec (lit text : string) :
  Regex.prefix_at true lit text = true <->
  exists after, fold_text text = (fold_text lit ++ after)%string.
Proof.
  revert text. induction lit as [|a l IH]; intros text; simpl.
  - split; [intros _; now exists (fold_text text) | reflexivity].
  - destruct text as [|b t]; simpl.
    + split; [discriminate | intros [x H]; discriminate].
    + rewrite andb_true_iff, IH, Ascii.eqb_eq. split.
      * intros [E [x H]]. exists x. now rewrite E, H.
      * intros [x H]. inversion H. split; [reflexivity | now exists x].
Qed.

Lemma occurs_spec (lit text : string) :
  Regex.occurs true lit text = true <-> occurs_in lit text.
Proof.
  unfold occurs_in. induction text as [|b t IH].
  - simpl. rewrite orb_false_r, prefix_at_spec. split.
    + intros [x H]. exists EmptyString, x. exact H.
    + intros [pre [post H]]. destruct pre; [now exists post | discriminate].
  - cbn [Regex.occurs]. rewrite orb_true_iff, prefix_at_spec, IH. split.
    + intros [[x H]|[pre [post H]]].
      * exists EmptyString, x. exact H.
      * exists (String (Regex.fold_case b) pre), post. simpl. now rewrite H.
    + intros [pre [post H]]. destruct pre as [|p pre].
      * left. now exists post.
      * right. exists pre, post. simpl in H. now inversion H.
Qed.

Lemma regex_condition (field : string) (x : string) (t : Task) :
  Mongo.cond_holds (FRegex field (Py.re_escape x) "i") t =
  match get_field field t with
  | BStr text => Regex.occurs true x text
  | _ => false
  end.
Proof.
  simpl. unfold Regex.search. rewrite literal_re_escape. reflexivity.
Qed.

Lemma text_filter_matches (q : string) (t : Task) :
  Py.truthy q = true ->
  Mongo.matches (text_filter (Some q)) t =
  (Regex.occurs true (Py.strip q) (title t)
   || match description t with
      | Some d => Regex.occurs true (Py.strip q) d
      | None => false
      end).
Proof.
  intros Hq. unfold text_filter. rewrite Hq.
  unfold Mongo.matches, forallb. rewrite andb_true_r.
  cbn [Mongo.cond_holds]. fold (Mongo.cond_holds (FRegex "title" (Py.re_escape (Py.strip q)) "i") t).
  fold (Mongo.cond_holds (FRegex "description" (Py.re_escape (Py.strip q)) "i") t).
  rewrite !regex_condition.
  change (get_field "title" t) with (BStr (title t)).
  change (get_field "description" t) with (of_opt BStr (description t)).
  destruct (description t); reflexivity.
Qed.

Lemma matches_app (f1 f2 : list cond) (t : Task) :
  Mongo.matches (f1 ++ f2) t = Mongo.matches f1 t && Mongo.matches f2 t.
Proof. unfold Mongo.matches. apply forallb_app. Qed.

Lemma matches_middle (f1 f2 f3 : list cond) (t : Task) :
  Mongo.matches (f1 ++ f2 ++ f3) t
  = Mongo.matches f2 t && Mongo.matches (f1 ++ f3) t.
Proof.
  rewrite !matches_app.
  destruct (Mongo.matches f1 t), (Mongo.matches f2 t), (Mongo.matches f3 t); reflexivity.
Qed.

(** The filter of a listing is the text condition and the other ones. *)
Lemma build_filter_text `{Datetime} (uid : ObjectId) (a : TaskQuery) (flt : list cond) :
  build_filter uid a = Return flt ->
  exists others, forall t,
    Mongo.matches flt t
    = Mongo.matches (text_filter (q_q a)) t && Mongo.matches others t.
Proof.
  unfold build_filter.
  destruct (due_bound (FLte "due_date") (q_due_before a)) as [fb| |]; try discriminate.
  destruct (due_bound (FGte "due_date") (q_due_after a)) as [fa| |]; try discriminate.
  destruct (q_parent_id a) as [p|].
  - destruct (_oid (Some p)) as [po| |]; try discriminate.
    intros E. injection E as <-.
    eexists. intros t. apply (matches_middle [FEq "user_id" (BOid uid)]).
  - intros E. injection E as <-.
    eexists. intros t. apply (matches_middle [FEq "user_id" (BOid uid)]).
Qed.

Lemma text_filter_spec (q : string) (t : Task) :
  Py.truthy q = true ->
  Mongo.matches (text_filter (Some q)) t = true <->
  occurs_in (Py.strip q) (title t) \/
  exists d, description t = Some d /\ occurs_in (Py.strip q) d.
Proof.
  intros Hq. rewrite (text_filter_matches q t Hq), orb_true_iff, occurs_spec.
  destruct (description t) as [d|].
  - rewrite occurs_spec. split; intros [A|B]; auto.
    + right. now exists d.
    + destruct B as [d' [E B]]. inversion E; subst. now right.
  - split; intros [A|B]; auto; [discriminate|].
    destruct B as [d' [E _]]. discriminate.
Qed.

(** C9, as stated, fails: the text is stripped before it is escaped. The
    query [" a "] finds a task titled ["a"], where [" a "] occurs neither
    in the title nor in a description. *)
Lemma C9_search_text_is_stripped_first :
  (exists r,
     TasksCollection_get Demo.alice (Demo.search_for " a ") [Demo.titled_a]
     = Some (Return r, [Demo.titled_a])
     /\ items r = [_serialize_task Demo.titled_a])
  /\ Mongo.matches (text_filter (Some " a ")) Demo.titled_a = true
  /\ ~ occurs_in " a " (title Demo.titled_a)
  /\ description Demo.titled_a = None.
Proof.
  split; [|split; [|split]].
  - eexists. split; cbv; reflexivity.
  - reflexivity.
  - intros H. apply occurs_spec in H. discriminate.
  - reflexivity.
Qed.

(** C9, amended. A non-empty search text [q] is first stripped of the
    white space around it; every character of the stripped text that is
    special to the store's patterns is escaped, so the pattern stands for
    the stripped text as it is written. A task meets the text condition
    exactly when the stripped text occurs, letter case apart, in its
    title or in its description (a null description has no occurrence),
    and the filter of the listing is this condition together with the
    other ones. An absent or empty [q] puts no condition. *)
Theorem C9_text_search_matches_the_stripped_text `{Datetime} (q : string) :
  Py.truthy q = true ->
  (forall c, Regex.is_metachar c = true -> Py.is_re_special c = true) /\
  Regex.literal (Py.re_escape (Py.strip q)) = Some (Py.strip q) /\
  (forall t,
     Mongo.matches (text_filter (Some q)) t = true <->
     occurs_in (Py.strip q) (title t) \/
     exists d, description t = Some d /\ occurs_in (Py.strip q) d) /\
  (forall uid a flt,
     q_q a = Some q -> build_filter uid a = Return flt ->
     exists others, forall t,
       Mongo.matches flt t = true <->
       (occurs_in (Py.strip q) (title t) \/
        exists d, description t = Some d /\ occurs_in (Py.strip q) d)
       /\ Mongo.matches others t = true) /\
  text_filter None = [] /\ text_filter (Some EmptyString) = [].
Proof.
  intros Hq. split; [exact metachar_escaped|].
  split; [apply literal_re_escape|].
  split; [intros t; now apply text_filter_spec|].
  split; [|split; reflexivity].
  intros uid a flt Ha Hflt.
  destruct (build_filter_text uid a flt Hflt) as [others Ho].
  exists others. intros t.
  rewrite Ho, Ha, andb_true_iff, (text_filter_spec q t Hq). reflexivity.
Qed.

Lemma C9_text_search_matches_the_stripped_text_witness :
  Regex.literal (Py.re_escape (Py.strip " (B) ")) = Some (Py.strip " (B) ") /\
  (forall t,
     Mongo.matches (text_filter (Some " (B) ")) t = true <->
     occurs_in (Py.strip " (B) ") (title t) \/
     exists d, description t = Some d /\ occurs_in (Py.strip " (B) ") d).
Proof.
  destruct (C9_text_search_matches_the_stripped_text " (B) " eq_refl) as [_ [A [B _]]].
  split; [exact A | exact B].
Defined.

(* ================================================================== *)
(** ** Null words in ids *)
(* ================================================================== *)






